(** * Krones ErgoBloc alarm parser and OPC UA simulation engine

    A shallow embedding of [krones_alarm_data.py] (alarm record, CSV row
    parser, pattern index) and of the simulation part of
    [krones_opcua_server.py] (tag tree, alarm activation and clearing,
    production tick, alarm replay loop with the two scripted scenarios),
    followed by the properties proved about them.

    Conventions of the embedding:
    - Python [float] is IEEE binary64, modelled by Rocq's primitive floats;
      Python [int] is [Z];
    - [str] is [string], one character per code point, for the code points
      below 256 (Latin-1);
    - [datetime] is a count of microseconds on the time line, so that the
      difference of two datetimes is the exact [timedelta] in microseconds;
    - a [dict] with string keys is a [gmap string _], a Python [list] is a
      [list];
    - an exception is a value of type [exn] carried by [result];
    - calls to [random], [time.monotonic] and [datetime.now] take the value
      they return as an explicit argument. *)

From Stdlib Require Import ZArith List String Ascii Floats Uint63 Lia.
From stdpp Require Import gmap strings list sorting.

#[local] Set Warnings "-inexact-float".
#[local] Open Scope string_scope.
#[local] Open Scope list_scope.
#[local] Open Scope Z_scope.

(** ** Python builtins used by the source *)

Inductive exn :=
  | IndexError
  | ValueError
  | OverflowError
  | OSError.

Definition result (A : Type) : Type := exn + A.

Definition ok {A} (x : A) : result A := inr x.
Definition raise {A} (e : exn) : result A := inl e.

Definition rbind {A B} (m : result A) (f : A -> result B) : result B :=
  match m with
  | inl e => inl e
  | inr x => f x
  end.

Notation "'try!' x ':=' m 'in' k" := (rbind m (fun x => k))
  (at level 10, x name, m at level 100, k at level 200).

Module PyFloat.

(** [float(n)] for an [int] below 2^63 in magnitude (exact below 2^53). *)
Definition of_int (z : Z) : float :=
  if z <? 0 then PrimFloat.opp (PrimFloat.of_uint63 (Uint63.of_Z (- z)))
  else PrimFloat.of_uint63 (Uint63.of_Z z).

(** [int(x)]: truncation toward zero; [ValueError] on NaN and
    [OverflowError] on an infinity. *)
Definition to_int (f : float) : result Z :=
  match Prim2SF f with
  | S754_zero _ => ok 0
  | S754_finite s m e =>
      let mag := if 0 <=? e then Z.pos m * 2 ^ e else Z.pos m / 2 ^ (- e) in
      ok (if s then - mag else mag)
  | S754_infinity _ => raise OverflowError
  | S754_nan => raise ValueError
  end.

(** [max(a, b)]: the first argument unless the second is greater. *)
Definition max (a b : float) : float :=
  if PrimFloat.ltb a b then b else a.

End PyFloat.

Module PyStr.

(** The lower-case form of one character: the letters A to Z and, above
    127, the capital letters U+00C0 to U+00DE (the multiplication sign
    U+00D7 is not one). *)
Definition lower_ascii (c : ascii) : ascii :=
  let n := nat_of_ascii c in
  if (((65 <=? n) && (n <=? 90))
      || ((192 <=? n) && (n <=? 222) && negb (n =? 215)))%nat
  then ascii_of_nat (n + 32) else c.

(** [s.lower()] *)
Fixpoint lower (s : string) : string :=
  match s with
  | EmptyString => EmptyString
  | String c r => String (lower_ascii c) (lower r)
  end.

(** [needle in hay] *)
Fixpoint contains (needle hay : string) : bool :=
  String.prefix needle hay ||
  match hay with
  | EmptyString => false
  | String _ r => contains needle r
  end.

(** The whitespace [int] accepts around a number: tab, line feed, vertical
    tab, form feed, carriage return and space; above 127, where [int] first
    maps Unicode whitespace to a space, U+0085 and U+00A0. The separators
    U+001C to U+001F are not among them. *)
Definition is_space (c : ascii) : bool :=
  let n := nat_of_ascii c in
  (((9 <=? n) && (n <=? 13)) || (n =? 32) || (n =? 133) || (n =? 160))%nat.

Definition is_digit (c : ascii) : bool :=
  let n := nat_of_ascii c in ((48 <=? n) && (n <=? 57))%nat.

Definition digit_val (c : ascii) : Z := Z.of_nat (nat_of_ascii c) - 48.

Fixpoint lstrip (s : string) : string :=
  match s with
  | String c r => if is_space c then lstrip r else s
  | EmptyString => EmptyString
  end.

Definition rev (s : string) : string :=
  string_of_list_ascii (List.rev (list_ascii_of_string s)).

(** [s] without the whitespace [int] accepts at both ends. *)
Definition strip (s : string) : string := rev (lstrip (rev (lstrip s))).

(** Decimal digits with single underscores allowed between digits. *)
Fixpoint parse_digits (s : string) (acc : Z) (after_digit : bool) : option Z :=
  match s with
  | EmptyString => if after_digit then Some acc else None
  | String c r =>
      if is_digit c then parse_digits r (10 * acc + digit_val c) true
      else if Ascii.eqb c "_" && after_digit then parse_digits r acc false
      else None
  end.

(** [sys.int_info.default_max_str_digits] *)
Definition int_max_str_digits : nat := 4300.

Definition digit_count (s : string) : nat :=
  length (List.filter is_digit (list_ascii_of_string s)).

(** [int(s)] for a [str]: surrounding whitespace, an optional sign, then
    decimal digits, no more of them than the interpreter's limit; anything
    else raises [ValueError]. *)
Definition to_int (s : string) : result Z :=
  let body := strip s in
  let '(neg, digits) :=
    match body with
    | String "-" r => (true, r)
    | String "+" r => (false, r)
    | _ => (false, body)
    end in
  match parse_digits digits 0 false with
  | Some n =>
      if (int_max_str_digits <? digit_count digits)%nat then raise ValueError
      else ok (if neg then - n else n)
  | None => raise ValueError
  end.

(** [str(n)] for an [int] *)
Fixpoint digits_of_pos (fuel : nat) (n : Z) (acc : string) : string :=
  match fuel with
  | O => acc
  | S fuel' =>
      let acc' := String (ascii_of_nat (Z.to_nat (48 + n mod 10))) acc in
      if n / 10 =? 0 then acc' else digits_of_pos fuel' (n / 10) acc'
  end.

Definition of_int (z : Z) : string :=
  if z <? 0 then String "-" (digits_of_pos (Z.to_nat (Z.log2 (- z)) + 1) (- z) "")
  else digits_of_pos (Z.to_nat (Z.log2 z) + 1) z "".

End PyStr.

(** ** [datetime] and [timedelta] *)

(** Microseconds on the time line. *)
Definition datetime : Type := Z.

(** Microseconds. *)
Definition timedelta : Type := Z.

(** [timedelta.total_seconds()]: the microsecond count divided by 10^6 as a
    true division of integers. *)
Definition total_seconds (d : timedelta) : float :=
  PrimFloat.div (PyFloat.of_int d) (PyFloat.of_int 1000000).

(** ** krones_alarm_data.py: the alarm record *)

Record KronesAlarm := mkKronesAlarm {
  module : string;
  msg_nr : Z;
  alarm_type : string;
  message : string;
  sw_ref : string;
  comes_timestamp : datetime;
  goes_timestamp : option datetime;
  duration_ms : option Z;
}.

#[global] Instance KronesAlarm_eq_dec : EqDecision KronesAlarm.
Proof. solve_decision. Defined.

(** [KronesAlarm.__post_init__]. A [datetime] is always truthy, so the test
    [self.goes_timestamp and self.comes_timestamp] is the presence of the
    clear timestamp. *)
Definition __post_init__ (self : KronesAlarm) : result KronesAlarm :=
  match goes_timestamp self with
  | Some goes =>
      let delta := goes - comes_timestamp self in
      try! d := PyFloat.to_int
                   (PrimFloat.mul (total_seconds delta) (PyFloat.of_int 1000)) in
      ok (mkKronesAlarm (module self) (msg_nr self) (alarm_type self)
            (message self) (sw_ref self) (comes_timestamp self)
            (goes_timestamp self) (Some d))
  | None => ok self
  end.

(** The dataclass constructor as [_parse_alarm_row] calls it: [duration_ms]
    keeps its default [None] until [__post_init__] runs. *)
Definition KronesAlarm_new (module : string) (msg_nr : Z)
    (alarm_type message sw_ref : string) (comes_timestamp : datetime)
    (goes_timestamp : option datetime) : result KronesAlarm :=
  __post_init__
    (mkKronesAlarm module msg_nr alarm_type message sw_ref
       comes_timestamp goes_timestamp None).

(** ** krones_alarm_data.py: the CSV row parser *)

(** A cell of the data frame that [pandas.read_csv] produced: a missing
    value, a string, a number or a truth value. *)
Inductive cell :=
  | CNaN
  | CStr (s : string)
  | CInt (z : Z)
  | CFloat (f : float)
  | CBool (b : bool).

Abbreviation row := (list cell).

(** A data frame: its number of columns and its rows. A frame has one cell
    per column in every row ([frame_ok]). *)
Record DataFrame := mkFrame {
  n_columns : nat;
  frame_rows : list row;
}.

Definition frame_ok (df : DataFrame) : Prop :=
  Forall (fun r => length r = n_columns df) (frame_rows df).

(** What [load_alarm_data] finds at [csv_file_path]: no file, a file that
    [pd.read_csv] fails on with an exception, or the frame it returns. *)
Inductive csv_file :=
  | CsvMissing
  | CsvUnreadable (e : exn)
  | CsvFrame (df : DataFrame).

(** [row.iloc[i]] *)
Definition iloc (r : row) (i : nat) : result cell :=
  match r !! i with
  | Some c => ok c
  | None => raise IndexError
  end.

(** [Series.notna()] on one cell *)
Definition notna (c : cell) : bool :=
  match c with
  | CNaN => false
  | CFloat f => negb (PrimFloat.is_nan f)
  | _ => true
  end.

(** [Series.isin(values)] on one cell *)
Definition isin (c : cell) (values : list string) : bool :=
  match c with
  | CStr s => bool_decide (s ∈ values)
  | _ => false
  end.

Inductive level := DEBUG | INFO | WARNING | ERROR.

Inductive parser_msg :=
  | MsgCsvNotFound
  | MsgFoundEntries (n : nat)
  | MsgSampleRows
  | MsgSampleRow (i : nat) (r : row)
  | MsgFailedToParseRow (e : exn)
  | MsgLoaded (n_alarms n_patterns : nat)
  | MsgFailedToLoad (e : exn)
  | MsgErrorParsingRow (e : exn).

Abbreviation log_record := (level * parser_msg)%type.

Record KronesAlarmDataParser := mkParser {
  alarms : list KronesAlarm;
  alarm_patterns : gmap string (list KronesAlarm);
  parser_log : list log_record;
}.

(** [KronesAlarmDataParser.__init__] *)
Definition parser_init : KronesAlarmDataParser := mkParser [] ∅ [].

Definition severities : list string :=
  ["Warning"; "Fault"; "FirstFault"; "Note"; "Debug"].

(** [df.iloc[:, i]] exists: selecting a column the frame does not have
    raises [IndexError], whether or not the frame has rows. *)
Definition has_column (df : DataFrame) (i : nat) : result unit :=
  if bool_decide (i < n_columns df)%nat then ok tt else raise IndexError.

(** The mask of [load_alarm_data] on one row: column 10 is a known alarm
    type and columns 34, 35, 36 are present. *)
Definition qualifies (r : row) : result bool :=
  try! c10 := iloc r 10 in
  try! c34 := iloc r 34 in
  try! c35 := iloc r 35 in
  try! c36 := iloc r 36 in
  ok (isin c10 severities && notna c34 && notna c35 && notna c36).

(** The rows the mask selects. *)
Fixpoint filter_alarm_rows (df : list row) : result (list row) :=
  match df with
  | [] => ok []
  | r :: df' =>
      try! q := qualifies r in
      try! rest := filter_alarm_rows df' in
      ok (if q then r :: rest else rest)
  end.

(** [alarm_rows = df[...]]: the four columns are selected from the frame,
    in the order the mask names them, then the mask selects the rows. *)
Definition alarm_rows_of (df : DataFrame) : result (list row) :=
  try! c10 := has_column df 10 in
  try! c34 := has_column df 34 in
  try! c35 := has_column df 35 in
  try! c36 := has_column df 36 in
  filter_alarm_rows (frame_rows df).

(** [pattern_key = f"{alarm.module}_{alarm.alarm_type}"] *)
Definition pattern_key (alarm : KronesAlarm) : string :=
  module alarm +:+ "_" +:+ alarm_type alarm.

(** [_build_alarm_patterns] *)
Definition add_to_patterns (patterns : gmap string (list KronesAlarm))
    (alarm : KronesAlarm) : gmap string (list KronesAlarm) :=
  let key := pattern_key alarm in
  let patterns' :=
    match patterns !! key with
    | None => <[key := []]> patterns
    | Some _ => patterns
    end in
  <[key := default [] (patterns' !! key) ++ [alarm]]> patterns'.

Definition _build_alarm_patterns (self : KronesAlarmDataParser)
    : KronesAlarmDataParser :=
  mkParser (alarms self)
    (fold_left add_to_patterns (alarms self) (alarm_patterns self))
    (parser_log self).

Section Parser.

(** Library functions the parser calls.
    [strptime_ms s] is [datetime.strptime(s, "%m/%d/%Y %H:%M:%S.%f")] and
    [strptime_s s] is [datetime.strptime(s, "%m/%d/%Y %H:%M:%S")], with
    [None] for [ValueError]; [float_repr] is [str] of a float. *)
Variable strptime_ms : string -> option datetime.
Variable strptime_s : string -> option datetime.
Variable float_repr : float -> string.

(** [str(cell)] *)
Definition py_str (c : cell) : string :=
  match c with
  | CNaN => "nan"
  | CStr s => s
  | CInt z => PyStr.of_int z
  | CFloat f => if PrimFloat.is_nan f then "nan" else float_repr f
  | CBool b => if b then "True" else "False"
  end.

(** [int(cell)] *)
Definition py_int (c : cell) : result Z :=
  match c with
  | CNaN => raise ValueError
  | CStr s => PyStr.to_int s
  | CInt z => ok z
  | CFloat f => PyFloat.to_int f
  | CBool b => ok (if b then 1 else 0)
  end.

(** [_parse_timestamp]; [now] is what [datetime.now()] would return. *)
Definition _parse_timestamp (now : datetime) (timestamp_str : string)
    : datetime :=
  match strptime_ms timestamp_str with
  | Some t => t
  | None =>
      match strptime_s timestamp_str with
      | Some t => t
      | None => now
      end
  end.

(** The [try] block of [_parse_alarm_row]. *)
Definition parse_alarm_row_body (now_comes now_goes : datetime) (r : row)
    : result (option KronesAlarm) :=
  try! c11 := iloc r 11 in
  let comes_str := py_str c11 in
  try! c19 := iloc r 19 in
  let goes_str := py_str c19 in
  if bool_decide (comes_str = "nan") || bool_decide (comes_str = "") then
    ok None
  else
    let comes_ts := _parse_timestamp now_comes comes_str in
    let goes_ts :=
      if bool_decide (goes_str ≠ "nan")
      then Some (_parse_timestamp now_goes goes_str) else None in
    try! c34 := iloc r 34 in
    let module := py_str c34 in
    try! c35 := iloc r 35 in
    try! msg_nr := py_int c35 in
    try! c10 := iloc r 10 in
    let alarm_type := py_str c10 in
    try! c36 := iloc r 36 in
    let message := py_str c36 in
    try! c37 := iloc r 37 in
    let sw_ref := py_str c37 in
    try! alarm := KronesAlarm_new module msg_nr alarm_type message sw_ref
                    comes_ts goes_ts in
    ok (Some alarm).

(** [_parse_alarm_row]: the record (or [None]) and what it logged. *)
Definition _parse_alarm_row (now_comes now_goes : datetime) (r : row)
    : option KronesAlarm * list log_record :=
  match parse_alarm_row_body now_comes now_goes r with
  | inr res => (res, [])
  | inl e => (None, [(DEBUG, MsgErrorParsingRow e)])
  end.

(** The row loop of [load_alarm_data]. [_parse_alarm_row] catches every
    exception itself, so the [except] of the loop has nothing to catch. *)
Fixpoint parse_rows (clock : nat -> datetime * datetime) (i : nat)
    (rows : list row) (self : KronesAlarmDataParser)
    : KronesAlarmDataParser :=
  match rows with
  | [] => self
  | r :: rows' =>
      let '(res, logged) :=
        _parse_alarm_row (fst (clock i)) (snd (clock i)) r in
      let alarms' :=
        match res with
        | Some alarm => alarms self ++ [alarm]
        | None => alarms self
        end in
      parse_rows clock (S i) rows'
        (mkParser alarms' (alarm_patterns self) (parser_log self ++ logged))
  end.

Definition log_to (rec : log_record) (self : KronesAlarmDataParser)
    : KronesAlarmDataParser :=
  mkParser (alarms self) (alarm_patterns self) (parser_log self ++ [rec]).

Definition sample_rows (alarm_rows : list row) : list log_record :=
  imap (fun i r => (INFO, MsgSampleRow i r)) (take 3 alarm_rows).

(** [load_alarm_data]; [csv] is what is found at [csv_file_path]. An
    exception of [read_csv] or of the column selection reaches the outer
    handler. *)
Definition load_alarm_data (csv : csv_file)
    (clock : nat -> datetime * datetime) (self : KronesAlarmDataParser)
    : bool * KronesAlarmDataParser :=
  match csv with
  | CsvMissing => (false, log_to (ERROR, MsgCsvNotFound) self)
  | CsvUnreadable e => (false, log_to (ERROR, MsgFailedToLoad e) self)
  | CsvFrame df =>
      match alarm_rows_of df with
      | inl e => (false, log_to (ERROR, MsgFailedToLoad e) self)
      | inr alarm_rows =>
          let self1 :=
            log_to (INFO, MsgFoundEntries (length alarm_rows)) self in
          let self2 := log_to (INFO, MsgSampleRows) self1 in
          let self3 :=
            mkParser (alarms self2) (alarm_patterns self2)
              (parser_log self2 ++ sample_rows alarm_rows) in
          let self4 := parse_rows clock 0 alarm_rows self3 in
          let self5 := _build_alarm_patterns self4 in
          (true,
           log_to (INFO, MsgLoaded (length (alarms self5))
                                   (size (alarm_patterns self5))) self5)
      end
  end.

(** [parse(rows)]: the records of a fresh parser after loading. *)
Definition parse (df : DataFrame) (clock : nat -> datetime * datetime)
    : list KronesAlarm :=
  alarms (snd (load_alarm_data (CsvFrame df) clock parser_init)).

End Parser.

(** Number of rows the parser logged as skipped. *)
Definition is_skip (rec : log_record) : bool :=
  match rec with
  | (_, MsgErrorParsingRow _) | (_, MsgFailedToParseRow _) => true
  | _ => false
  end.

Definition logged_skips (self : KronesAlarmDataParser) : nat :=
  length (filter (fun rec => is_skip rec = true) (parser_log self)).

(** ** krones_alarm_data.py: the pattern index *)

(** [get_common_alarms] *)
Definition get_common_alarms (self : KronesAlarmDataParser)
    : gmap string (list KronesAlarm) :=
  omap (fun alarms : list KronesAlarm =>
          if bool_decide (5 ≤ length alarms)%nat
          then Some (take 10 alarms) else None)
       (alarm_patterns self).

(** [get_alarm_by_module] *)
Definition get_alarm_by_module (self : KronesAlarmDataParser) (m : string)
    : list KronesAlarm :=
  filter (fun alarm => module alarm = m) (alarms self).

(** [sorted(self.alarms, key=lambda x: x.comes_timestamp)]: a stable sort,
    records with equal timestamps keep their order. *)
Fixpoint insert_by_timestamp (a : KronesAlarm) (l : list KronesAlarm)
    : list KronesAlarm :=
  match l with
  | [] => [a]
  | b :: l' =>
      if comes_timestamp a <=? comes_timestamp b then a :: l
      else b :: insert_by_timestamp a l'
  end.

Definition sorted_alarms (l : list KronesAlarm) : list KronesAlarm :=
  foldr insert_by_timestamp [] l.

(** The test [(alarm.comes_timestamp - last_timestamp).total_seconds() <= 300].
    The quotient [total_seconds] is the correctly rounded value of
    microseconds / 10^6 and 300 is a float, so the test holds exactly when
    the difference is at most 300 * 10^6 microseconds; the comparison is
    made on the microsecond count. *)
Definition within_gap (delta : timedelta) : bool := delta <=? 300 * 1000000.

(** The loop variables of [get_cascading_sequences]. *)
Record scan_state := mkScan {
  sequences : list (list KronesAlarm);
  current_sequence : list KronesAlarm;
  last_timestamp : option datetime;
}.

Definition scan_init : scan_state := mkScan [] [] None.

(** [if len(current_sequence) >= 3: sequences.append(current_sequence)] *)
Definition flush (seqs : list (list KronesAlarm)) (cur : list KronesAlarm)
    : list (list KronesAlarm) :=
  if bool_decide (3 ≤ length cur)%nat then seqs ++ [cur] else seqs.

(** One iteration of the loop over [sorted_alarms]. *)
Definition cascade_step (st : scan_state) (alarm : KronesAlarm) : scan_state :=
  let ts := comes_timestamp alarm in
  match last_timestamp st with
  | None => mkScan (sequences st) [alarm] (Some ts)
  | Some last =>
      if within_gap (ts - last) then
        mkScan (sequences st) (current_sequence st ++ [alarm]) (Some ts)
      else
        mkScan (flush (sequences st) (current_sequence st)) [alarm] (Some ts)
  end.

Definition cascade_scan (l : list KronesAlarm) : scan_state :=
  fold_left cascade_step l scan_init.

(** [get_cascading_sequences] *)
Definition get_cascading_sequences (self : KronesAlarmDataParser)
    : list (list KronesAlarm) :=
  let st := cascade_scan (sorted_alarms (alarms self)) in
  flush (sequences st) (current_sequence st).

(** [get_typical_durations]: the first loop collects, per pattern key, the
    durations of the records that have one. *)
Definition add_duration (samples : gmap string (list Z)) (alarm : KronesAlarm)
    : gmap string (list Z) :=
  match duration_ms alarm with
  | None => samples
  | Some d =>
      let key := pattern_key alarm in
      let samples' :=
        match samples !! key with
        | None => <[key := []]> samples
        | Some _ => samples
        end in
      <[key := default [] (samples' !! key) ++ [d]]> samples'
  end.

Record duration_stats := mkStats {
  stat_mean : float;
  stat_min : Z;
  stat_max : Z;
  stat_count : nat;
}.

(** [sum(durations)] *)
Definition py_sum (l : list Z) : Z := fold_left Z.add l 0.

(** The second loop of [get_typical_durations] on one bucket; an empty
    bucket gives no entry. The mean is the true division of two integers. *)
Definition stats_of (durations : list Z) : option duration_stats :=
  match durations with
  | [] => None
  | d :: ds =>
      Some (mkStats
              (PyFloat.of_int (py_sum durations)
               / PyFloat.of_int (Z.of_nat (length durations)))%float
              (fold_left Z.min ds d)
              (fold_left Z.max ds d)
              (length durations))
  end.

Definition get_typical_durations (self : KronesAlarmDataParser)
    : gmap string duration_stats :=
  omap stats_of (fold_left add_duration (alarms self) ∅).

(** [get_sample_alarm_messages]: one loop step. *)
Definition add_message (messages : gmap string (list string))
    (alarm : KronesAlarm) : gmap string (list string) :=
  let messages' :=
    match messages !! module alarm with
    | None => <[module alarm := []]> messages
    | Some _ => messages
    end in
  let seen := default [] (messages' !! module alarm) in
  if bool_decide (message alarm ∈ seen) then messages'
  else <[module alarm := seen ++ [message alarm]]> messages'.

Definition get_sample_alarm_messages (self : KronesAlarmDataParser)
    : gmap string (list string) :=
  fold_left add_message (alarms self) ∅.

(** ** krones_opcua_server.py: the tag tree *)

Inductive value :=
  | VBool (b : bool)
  | VInt (z : Z)
  | VFloat (f : float)
  | VStr (s : string).

(** The node dictionaries: each key names the node id its variable was
    created with in [_setup_*_nodes]. *)
Module mma_nodes.
Definition State := "ns=2;s=MMA.State".
Definition Speed_CPH := "ns=2;s=MMA.Speed".
Definition Temperature := "ns=2;s=MMA.Temperature".
Definition Pressure := "ns=2;s=MMA.Pressure".
Definition Total_Production := "ns=2;s=MMA.TotalProduction".
Definition Fault_Routine_Active := "ns=2;s=MMA.FaultRoutine".
Definition Manual_Override := "ns=2;s=MMA.ManualOverride".
Definition Air_Dehumidifier := "ns=2;s=MMA.AirDehumidifier".
Definition Guard_Door_1 := "ns=2;s=MMA.GuardDoor1".
Definition Level_LT100 := "ns=2;s=MMA.LevelLT100".
Definition Container_Transfer := "ns=2;s=MMA.ContainerTransfer".
Definition Cap_Feed_Unit := "ns=2;s=MMA.CapFeedUnit".
Definition Active_Alarms := "ns=2;s=MMA.ActiveAlarms".
Definition Warning_Count := "ns=2;s=MMA.WarningCount".
Definition Fault_Count := "ns=2;s=MMA.FaultCount".
Definition MotorProtector_100 := "ns=2;s=MMA.MotorProtector100".
Definition MotorProtector_101 := "ns=2;s=MMA.MotorProtector101".
Definition MotorProtector_103 := "ns=2;s=MMA.MotorProtector103".
Definition ESTOP_Triggered := "ns=2;s=MMA.ESTOPTriggered".
Definition LevelTooHigh_LT100 := "ns=2;s=MMA.LevelTooHighLT100".
Definition GuardDoorOpen_1 := "ns=2;s=MMA.GuardDoorOpen1".
Definition OperatorPanelAccess := "ns=2;s=MMA.OperatorPanelAccess".
Definition GuardDoorReset := "ns=2;s=MMA.GuardDoorReset".
End mma_nodes.

Module bas_nodes.
Definition BCM_Server_Status := "ns=2;s=BAS.BCMServer".
Definition Communication_Health := "ns=2;s=BAS.CommHealth".
Definition Network_Errors := "ns=2;s=BAS.NetworkErrors".
Definition PowerLoss := "ns=2;s=BAS.PowerLoss".
Definition ProfibusFault := "ns=2;s=BAS.ProfibusFault".
End bas_nodes.

Module sdc_nodes.
Definition Power_Supply_Status := "ns=2;s=SDC.PowerSupply".
Definition Servo_Drive_Status := "ns=2;s=SDC.ServoDrive".
Definition Service_Brake_Torque := "ns=2;s=SDC.BrakeTorque".
Definition Safety_Circuit := "ns=2;s=SDC.SafetyCircuit".
End sdc_nodes.

Module sbc_nodes.
Definition Stretching_Drive_12 := "ns=2;s=SBC.StretchDrive12".
Definition Stretching_Drive_13 := "ns=2;s=SBC.StretchDrive13".
Definition Stretching_Drive_14 := "ns=2;s=SBC.StretchDrive14".
Definition Position_Deviation := "ns=2;s=SBC.PositionDev".
End sbc_nodes.

Module bcm_nodes.
Definition Server_Connection := "ns=2;s=BCM.ServerConn".
Definition Data_Exchange_Rate := "ns=2;s=BCM.DataRate".
Definition Message_Queue := "ns=2;s=BCM.MessageQueue".
End bcm_nodes.

Module process_nodes.
Definition Line_State := "ns=2;s=Process.LineState".
Definition OEE := "ns=2;s=Process.OEE".
Definition Availability := "ns=2;s=Process.Availability".
Definition Performance := "ns=2;s=Process.Performance".
Definition Quality := "ns=2;s=Process.Quality".
Definition Downtime_Minutes := "ns=2;s=Process.Downtime".
Definition TriggerScenarioA := "ns=2;s=Process.TriggerScenarioA".
Definition TriggerScenarioB := "ns=2;s=Process.TriggerScenarioB".
End process_nodes.

(** The values the variables are created with: the nominal state of the
    line. *)
Definition initial_nodes : list (string * value) :=
  [ (mma_nodes.State, VStr "STOPPED");
    (mma_nodes.Speed_CPH, VInt 0);
    (mma_nodes.Temperature, VFloat 20.0);
    (mma_nodes.Pressure, VFloat 6.0);
    (mma_nodes.Total_Production, VInt 0);
    (mma_nodes.Fault_Routine_Active, VBool false);
    (mma_nodes.Manual_Override, VBool false);
    (mma_nodes.Air_Dehumidifier, VBool true);
    (mma_nodes.Guard_Door_1, VBool true);
    (mma_nodes.Level_LT100, VFloat 50.0);
    (mma_nodes.Container_Transfer, VBool true);
    (mma_nodes.Cap_Feed_Unit, VBool true);
    (mma_nodes.Active_Alarms, VInt 0);
    (mma_nodes.Warning_Count, VInt 0);
    (mma_nodes.Fault_Count, VInt 0);
    (mma_nodes.MotorProtector_100, VBool false);
    (mma_nodes.MotorProtector_101, VBool false);
    (mma_nodes.MotorProtector_103, VBool false);
    (mma_nodes.ESTOP_Triggered, VBool false);
    (mma_nodes.LevelTooHigh_LT100, VBool false);
    (mma_nodes.GuardDoorOpen_1, VBool false);
    (mma_nodes.OperatorPanelAccess, VBool false);
    (mma_nodes.GuardDoorReset, VBool false);
    (bas_nodes.BCM_Server_Status, VStr "ONLINE");
    (bas_nodes.Communication_Health, VInt 100);
    (bas_nodes.Network_Errors, VInt 0);
    (bas_nodes.PowerLoss, VBool false);
    (bas_nodes.ProfibusFault, VBool false);
    (sdc_nodes.Power_Supply_Status, VStr "OK");
    (sdc_nodes.Servo_Drive_Status, VStr "OK");
    (sdc_nodes.Service_Brake_Torque, VFloat 100.0);
    (sdc_nodes.Safety_Circuit, VBool true);
    (sbc_nodes.Stretching_Drive_12, VFloat 0.0);
    (sbc_nodes.Stretching_Drive_13, VFloat 0.0);
    (sbc_nodes.Stretching_Drive_14, VFloat 0.0);
    (sbc_nodes.Position_Deviation, VFloat 0.0);
    (bcm_nodes.Server_Connection, VStr "CONNECTED");
    (bcm_nodes.Data_Exchange_Rate, VInt 1000);
    (bcm_nodes.Message_Queue, VInt 0);
    (process_nodes.Line_State, VStr "RUNNING");
    (process_nodes.OEE, VFloat 0.0);
    (process_nodes.Availability, VFloat 0.0);
    (process_nodes.Performance, VFloat 0.0);
    (process_nodes.Quality, VFloat 0.0);
    (process_nodes.Downtime_Minutes, VInt 0);
    (process_nodes.TriggerScenarioA, VBool false);
    (process_nodes.TriggerScenarioB, VBool false) ].

Definition initial_tree : gmap string value := list_to_map initial_nodes.

(** ** krones_opcua_server.py: the simulation state *)

Inductive scenario := ScenarioA | ScenarioB.

Inductive server_msg :=
  | LogTagSet (tag : string) (v : value) (reason : string)
  | LogActivated (alarm : KronesAlarm) (tag_names : list string)
  | LogCleared (alarm : KronesAlarm) (tag_names : list string)
  | LogTriggeringSequence (n : nat)
  | LogTriggeredRandom (alarm : KronesAlarm)
  | LogScenarioTrigger (s : scenario)
  | LogLineStopped (s : scenario)
  | LogScenarioDone (s : scenario)
  | LogLineRunning (s : scenario)
  | LogProductionError (e : exn).

(** What a coroutine does to the outside: a tag write, an
    [asyncio.sleep], a log line. *)
Inductive action :=
  | AWrite (tag : string) (v : value)
  | ASleep (seconds : float)
  | ALog (m : server_msg).

Record server := mkServer {
  alarm_parser : option KronesAlarmDataParser;
  alarm_sequences : list (list KronesAlarm);
  current_alarms : list KronesAlarm;
  tree : gmap string value;
  production_rate : Z;
  total_production : float;
  trace : list action;
}.

Definition set_current_alarms (l : list KronesAlarm) (st : server) : server :=
  mkServer (alarm_parser st) (alarm_sequences st) l (tree st)
    (production_rate st) (total_production st) (trace st).

Definition set_production_rate (r : Z) (st : server) : server :=
  mkServer (alarm_parser st) (alarm_sequences st) (current_alarms st) (tree st)
    r (total_production st) (trace st).

Definition set_total_production (t : float) (st : server) : server :=
  mkServer (alarm_parser st) (alarm_sequences st) (current_alarms st) (tree st)
    (production_rate st) t (trace st).

Definition emit (a : action) (st : server) : server :=
  mkServer (alarm_parser st) (alarm_sequences st) (current_alarms st) (tree st)
    (production_rate st) (total_production st) (trace st ++ [a]).

(** [node.write_value(v)] *)
Definition write_value (tag : string) (v : value) (st : server) : server :=
  emit (AWrite tag v)
    (mkServer (alarm_parser st) (alarm_sequences st) (current_alarms st)
       (<[tag := v]> (tree st)) (production_rate st) (total_production st)
       (trace st)).

Definition sleep (seconds : float) (st : server) : server :=
  emit (ASleep seconds) st.

Definition log (m : server_msg) (st : server) : server := emit (ALog m) st.

Definition run_action (st : server) (a : action) : server :=
  match a with
  | AWrite tag v => write_value tag v st
  | ASleep s => sleep s st
  | ALog m => log m st
  end.

(** The server after [load_alarm_data] succeeded and [start_server] built
    the address space. *)
Definition server_start (p : KronesAlarmDataParser) : server :=
  mkServer (Some p) (get_cascading_sequences p) [] initial_tree 0 0%float [].

(** [random.choice(seq)]; [r] is the random draw. *)
Definition choice {A} (r : nat) (l : list A) : option A :=
  l !! (r mod length l)%nat.

(** [list.remove(x)]: drops the first element equal to [x]. *)
Fixpoint list_remove `{EqDecision A} (x : A) (l : list A) : list A :=
  match l with
  | [] => []
  | y :: l' => if decide (y = x) then l' else y :: list_remove x l'
  end.

(** ** krones_opcua_server.py: alarm activation and clearing *)

Definition msg_lower_has (needle : string) (alarm : KronesAlarm) : bool :=
  PyStr.contains needle (PyStr.lower (message alarm)).

Definition msg_has (needle : string) (alarm : KronesAlarm) : bool :=
  PyStr.contains needle (message alarm).

(** The tag writes of [_activate_alarm], in order; [deviation] is the draw
    [random.uniform(5.0, 15.0)]. *)
Definition activation_writes (deviation : float) (alarm : KronesAlarm)
    : list (string * value) :=
  if bool_decide (module alarm = "MMA") then
    if msg_lower_has "fault routine" alarm then
      [(mma_nodes.Fault_Routine_Active, VBool true)]
    else if msg_lower_has "manual" alarm then
      [(mma_nodes.Manual_Override, VBool true)]
    else if msg_lower_has "dehumidifier" alarm then
      [(mma_nodes.Air_Dehumidifier, VBool false)]
    else if msg_lower_has "guard door" alarm then
      [(mma_nodes.Guard_Door_1, VBool false)]
    else if msg_lower_has "level" alarm && msg_has "LT100" alarm then
      [(mma_nodes.Level_LT100, VFloat 95.0)]
    else if msg_lower_has "container transfer" alarm then
      [(mma_nodes.Container_Transfer, VBool false)]
    else if msg_lower_has "cap feed" alarm then
      [(mma_nodes.Cap_Feed_Unit, VBool false)]
    else []
  else if bool_decide (module alarm = "BAS") then
    if msg_lower_has "BCM server" alarm then
      [(bas_nodes.BCM_Server_Status, VStr "OFFLINE");
       (bas_nodes.Communication_Health, VInt 0)]
    else []
  else if bool_decide (module alarm = "SDC") then
    if msg_lower_has "power supply" alarm then
      [(sdc_nodes.Power_Supply_Status, VStr "FAULT")]
    else if msg_lower_has "servo drive" alarm then
      [(sdc_nodes.Servo_Drive_Status, VStr "FAULT")]
    else if msg_lower_has "brake" alarm then
      [(sdc_nodes.Service_Brake_Torque, VFloat 50.0)]
    else []
  else if bool_decide (module alarm = "SBC") then
    if msg_lower_has "stretching drive" alarm then
      (sbc_nodes.Position_Deviation, VFloat deviation) ::
      (if msg_has "station: 12" alarm then
         [(sbc_nodes.Stretching_Drive_12, VFloat deviation)]
       else if msg_has "station: 13" alarm then
         [(sbc_nodes.Stretching_Drive_13, VFloat deviation)]
       else if msg_has "station: 14" alarm then
         [(sbc_nodes.Stretching_Drive_14, VFloat deviation)]
       else [])
    else []
  else [].

(** The tag writes of [_clear_random_alarm] for the alarm it removed. *)
Definition clear_writes (alarm : KronesAlarm) : list (string * value) :=
  if bool_decide (module alarm = "MMA") then
    if msg_lower_has "fault routine" alarm then
      [(mma_nodes.Fault_Routine_Active, VBool false)]
    else if msg_lower_has "manual" alarm then
      [(mma_nodes.Manual_Override, VBool false)]
    else if msg_lower_has "dehumidifier" alarm then
      [(mma_nodes.Air_Dehumidifier, VBool true)]
    else if msg_lower_has "guard door" alarm then
      [(mma_nodes.Guard_Door_1, VBool true)]
    else if msg_lower_has "level" alarm && msg_has "LT100" alarm then
      [(mma_nodes.Level_LT100, VFloat 50.0)]
    else if msg_lower_has "container transfer" alarm then
      [(mma_nodes.Container_Transfer, VBool true)]
    else if msg_lower_has "cap feed" alarm then
      [(mma_nodes.Cap_Feed_Unit, VBool true)]
    else []
  else if bool_decide (module alarm = "BAS") then
    [(bas_nodes.BCM_Server_Status, VStr "ONLINE");
     (bas_nodes.Communication_Health, VInt 100)]
  else if bool_decide (module alarm = "SDC") then
    [(sdc_nodes.Power_Supply_Status, VStr "OK");
     (sdc_nodes.Servo_Drive_Status, VStr "OK");
     (sdc_nodes.Service_Brake_Torque, VFloat 100.0)]
  else if bool_decide (module alarm = "SBC") then
    [(sbc_nodes.Position_Deviation, VFloat 0.0);
     (sbc_nodes.Stretching_Drive_12, VFloat 0.0);
     (sbc_nodes.Stretching_Drive_13, VFloat 0.0);
     (sbc_nodes.Stretching_Drive_14, VFloat 0.0)]
  else [].

(** One write with its [log_tag] line. *)
Definition set_tag (reason : string) (st : server) (w : string * value)
    : server :=
  log (LogTagSet (fst w) (snd w) reason) (write_value (fst w) (snd w) st).

(** [_activate_alarm] *)
Definition _activate_alarm (alarm : KronesAlarm) (deviation : float)
    (st : server) : server :=
  let st1 := set_current_alarms (current_alarms st ++ [alarm]) st in
  let writes := activation_writes deviation alarm in
  let st2 := fold_left (set_tag "Alarm Activated") writes st1 in
  log (LogActivated alarm (map fst writes)) st2.

(** [_clear_random_alarm]; [r] is the draw of [random.choice]. *)
Definition _clear_random_alarm (r : nat) (st : server) : server :=
  match choice r (current_alarms st) with
  | None => st
  | Some alarm =>
      let st1 :=
        set_current_alarms (list_remove alarm (current_alarms st)) st in
      let writes := clear_writes alarm in
      let st2 := fold_left (set_tag "Alarm Cleared") writes st1 in
      log (LogCleared alarm (map fst writes)) st2
  end.

(** The random draws of one iteration of the replay loop: the sequence, the
    alarm to clear, the alarm to trigger, and the deviation of the k-th
    activation of the iteration. *)
Record tick_rand := mkRand {
  r_seq : nat;
  r_clear : nat;
  r_alarm : nat;
  r_dev : nat -> float;
}.

(** [_trigger_alarm_sequence] *)
Definition _trigger_alarm_sequence (rnd : tick_rand) (st : server) : server :=
  match choice (r_seq rnd) (alarm_sequences st) with
  | None => st
  | Some sequence =>
      let st1 := log (LogTriggeringSequence (length sequence)) st in
      fold_left
        (fun st (ia : nat * KronesAlarm) =>
           let st' := _activate_alarm (snd ia) (r_dev rnd (fst ia)) st in
           if bool_decide (fst ia < length sequence - 1)%nat
           then sleep 0.01 st' else st')
        (imap pair (take 5 sequence)) st1
  end.

(** [_trigger_random_alarm] *)
Definition _trigger_random_alarm (rnd : tick_rand) (st : server) : server :=
  match alarm_parser st with
  | None => st
  | Some p =>
      match choice (r_alarm rnd) (alarms p) with
      | None => st
      | Some alarm =>
          log (LogTriggeredRandom alarm)
            (_activate_alarm alarm (r_dev rnd 5) st)
      end
  end.

Definition is_fault (alarm : KronesAlarm) : bool :=
  PyStr.contains "Fault" (alarm_type alarm).

Definition count (p : KronesAlarm -> bool) (l : list KronesAlarm) : Z :=
  Z.of_nat (length (List.filter p l)).

(** [_update_alarm_counters] *)
Definition _update_alarm_counters (st : server) : server :=
  let total_alarms := Z.of_nat (length (current_alarms st)) in
  let warning_count :=
    count (fun a => bool_decide (alarm_type a = "Warning")) (current_alarms st) in
  let fault_count := count is_fault (current_alarms st) in
  write_value mma_nodes.Fault_Count (VInt fault_count)
    (write_value mma_nodes.Warning_Count (VInt warning_count)
       (write_value mma_nodes.Active_Alarms (VInt total_alarms) st)).

(** ** krones_opcua_server.py: the production and metrics loops *)

Definition base_production_rate : Z := 18000.

(** [efficiency_factor] of [_simulate_production] for [n] active alarms. *)
Definition efficiency_factor (n : nat) : float :=
  if bool_decide (0 < n)%nat then
    PyFloat.max 0.2 (1.0 - PyFloat.of_int (Z.of_nat n) * 0.1)
  else 1.0%float.

(** [int(base_production_rate * efficiency_factor)] *)
Definition production_rate_of (n : nat) : result Z :=
  PyFloat.to_int (PyFloat.of_int base_production_rate * efficiency_factor n).

(** The [except] branch of the production loop. *)
Definition production_failed (e : exn) (st : server) : server :=
  sleep 5.0 (log (LogProductionError e) st).

(** One iteration of the loop of [_simulate_production]. *)
Definition _simulate_production_tick (st : server) : server :=
  match production_rate_of (length (current_alarms st)) with
  | inl e => production_failed e st
  | inr rate =>
      let st1 :=
        write_value mma_nodes.Speed_CPH (VInt rate)
          (set_production_rate rate st) in
      let per_second :=
        PyFloat.max (PyFloat.of_int 0)
          (PyFloat.of_int rate / PyFloat.of_int 3600) in
      let st2 :=
        set_total_production (total_production st1 + per_second)%float st1 in
      match PyFloat.to_int (total_production st2) with
      | inl e => production_failed e st2
      | inr total =>
          let st3 := write_value mma_nodes.Total_Production (VInt total) st2 in
          let st4 :=
            if 0 <? count is_fault (current_alarms st3) then
              write_value mma_nodes.State (VStr "FAULT") st3
            else if bool_decide (0 < length (current_alarms st3))%nat then
              write_value mma_nodes.State (VStr "WARNING") st3
            else if 1000 <? rate then
              write_value process_nodes.Line_State (VStr "RUNNING")
                (write_value mma_nodes.State (VStr "RUNNING") st3)
            else
              write_value process_nodes.Line_State (VStr "STOPPED")
                (write_value mma_nodes.State (VStr "STOPPED") st3) in
          sleep 1.0 st4
      end
  end.

Section Metrics.

(** [round(x, 1)] *)
Variable round1 : float -> float.

(** One iteration of the loop of [_update_process_variables]; [u_temp] and
    [u_pressure] are the draws [random.uniform(-2, 8)] and
    [random.uniform(-0.5, 1.0)]. *)
Definition _update_process_variables_tick (u_temp u_pressure : float)
    (st : server) : server :=
  let n := PyFloat.of_int (Z.of_nat (length (current_alarms st))) in
  let availability := PyFloat.max 0.0 (1.0 - n * 0.1) in
  let performance :=
    if 0 <? production_rate st
    then (PyFloat.of_int (production_rate st) / 18000.0)%float
    else 0.0%float in
  let faults := PyFloat.of_int (count is_fault (current_alarms st)) in
  let quality := PyFloat.max 0.85 (1.0 - faults * 0.05) in
  let oee := (availability * performance * quality)%float in
  let hundred := PyFloat.of_int 100 in
  let st1 :=
    write_value process_nodes.Availability
      (VFloat (round1 (availability * hundred))) st in
  let st2 :=
    write_value process_nodes.Performance
      (VFloat (round1 (performance * hundred))) st1 in
  let st3 :=
    write_value process_nodes.Quality
      (VFloat (round1 (quality * hundred))) st2 in
  let st4 :=
    write_value process_nodes.OEE (VFloat (round1 (oee * hundred))) st3 in
  let temp := (20.0 + u_temp)%float in
  let pressure := (6.0 + u_pressure)%float in
  let st5 := write_value mma_nodes.Temperature (VFloat (round1 temp)) st4 in
  let st6 :=
    write_value mma_nodes.Pressure (VFloat (round1 pressure)) st5 in
  sleep 5.0 st6.

End Metrics.

(** ** krones_opcua_server.py: the scenarios and the replay loop *)

(** The body of [_trigger_scenario_a], statement by statement. *)
Definition scenario_a_script : list action :=
  [ AWrite process_nodes.Line_State (VStr "STOPPED");
    ALog (LogLineStopped ScenarioA);
    AWrite mma_nodes.MotorProtector_100 (VBool true);
    ASleep 0.005;
    AWrite mma_nodes.MotorProtector_101 (VBool true);
    ASleep 0.005;
    AWrite mma_nodes.MotorProtector_103 (VBool true);
    ASleep 0.005;
    AWrite mma_nodes.ESTOP_Triggered (VBool true);
    ASleep 0.005;
    AWrite bas_nodes.PowerLoss (VBool true);
    ASleep 0.005;
    AWrite bas_nodes.ProfibusFault (VBool true);
    ASleep 10;
    AWrite mma_nodes.MotorProtector_100 (VBool false);
    AWrite mma_nodes.MotorProtector_101 (VBool false);
    AWrite mma_nodes.MotorProtector_103 (VBool false);
    AWrite mma_nodes.ESTOP_Triggered (VBool false);
    AWrite bas_nodes.PowerLoss (VBool false);
    AWrite bas_nodes.ProfibusFault (VBool false);
    ALog (LogScenarioDone ScenarioA);
    AWrite process_nodes.Line_State (VStr "RUNNING");
    ALog (LogLineRunning ScenarioA) ].

(** The body of [_trigger_scenario_b]. *)
Definition scenario_b_script : list action :=
  [ AWrite process_nodes.Line_State (VStr "STOPPED");
    ALog (LogLineStopped ScenarioB);
    AWrite mma_nodes.LevelTooHigh_LT100 (VBool true);
    ASleep 0.005;
    AWrite mma_nodes.GuardDoorOpen_1 (VBool true);
    ASleep 0.005;
    AWrite mma_nodes.OperatorPanelAccess (VBool true);
    ASleep 0.005;
    AWrite mma_nodes.GuardDoorReset (VBool true);
    ASleep 10;
    AWrite mma_nodes.LevelTooHigh_LT100 (VBool false);
    AWrite mma_nodes.GuardDoorOpen_1 (VBool false);
    AWrite mma_nodes.OperatorPanelAccess (VBool false);
    AWrite mma_nodes.GuardDoorReset (VBool false);
    ALog (LogScenarioDone ScenarioB);
    AWrite process_nodes.Line_State (VStr "RUNNING");
    ALog (LogLineRunning ScenarioB) ].

Definition scenario_script (s : scenario) : list action :=
  match s with
  | ScenarioA => scenario_a_script
  | ScenarioB => scenario_b_script
  end.

Definition _trigger_scenario_a (st : server) : server :=
  fold_left run_action scenario_a_script st.

Definition _trigger_scenario_b (st : server) : server :=
  fold_left run_action scenario_b_script st.

(** The local variables of [_simulate_real_alarms]. *)
Record loop_state := mkLoop {
  last_scenario_time : float;
  scenario_toggle : bool;
}.

Definition scenario_interval : Z := 30.

(** [_simulate_real_alarms] before its loop; [t0] is the first reading of
    [time.monotonic()]. *)
Definition loop_init (t0 : float) : loop_state := mkLoop t0 false.

(** One iteration of the loop of [_simulate_real_alarms]; [now] is the
    reading of [time.monotonic()]. The scenario is awaited inside the
    iteration: the statements after it run when its script has returned. *)
Definition alarm_iteration (now : float) (rnd : tick_rand)
    (s : loop_state * server) : loop_state * server :=
  let '(ls, st) := s in
  let '(ls1, st1) :=
    if (PyFloat.of_int scenario_interval <? now - last_scenario_time ls)%float
    then
      let st' :=
        if negb (scenario_toggle ls)
        then _trigger_scenario_a (log (LogScenarioTrigger ScenarioA) st)
        else _trigger_scenario_b (log (LogScenarioTrigger ScenarioB) st) in
      (mkLoop now (negb (scenario_toggle ls)), st')
    else (ls, st) in
  let st2 := _trigger_alarm_sequence rnd st1 in
  let st3 :=
    if bool_decide (current_alarms st2 ≠ [])
    then _clear_random_alarm (r_clear rnd) st2 else st2 in
  let st4 := _trigger_random_alarm rnd st3 in
  let st5 := _update_alarm_counters st4 in
  (ls1, sleep 0.05 st5).

(** The loop run for as many iterations as there are clock readings. *)
Definition _simulate_real_alarms (inputs : list (float * tick_rand))
    (t0 : float) (st : server) : loop_state * server :=
  fold_left (fun s inp => alarm_iteration (fst inp) (snd inp) s)
    inputs (loop_init t0, st).

(** ** The concurrent run: tasks, system traces, reachable states *)

(** The three coroutines that [run_simulation] gathers. *)
Inductive task := TProduction | TAlarms | TMetrics.

(** A system trace lists what the tasks did, in the order the event loop
    ran them. *)
Abbreviation event := (task * action)%type.

(** What the replay task ([_simulate_real_alarms]) did in a system trace. *)
Definition project (sys : list event) : list action :=
  omap (fun e : event =>
          match fst e with
          | TAlarms => Some (snd e)
          | _ => None
          end) sys.

Definition scenario_eqb (a b : scenario) : bool :=
  match a, b with
  | ScenarioA, ScenarioA | ScenarioB, ScenarioB => true
  | _, _ => false
  end.

Definition other_scenario (s : scenario) : scenario :=
  match s with
  | ScenarioA => ScenarioB
  | ScenarioB => ScenarioA
  end.

Definition value_eqb (a b : value) : bool :=
  match a, b with
  | VBool x, VBool y => Bool.eqb x y
  | VInt x, VInt y => x =? y
  | VFloat x, VFloat y => PrimFloat.eqb x y
  | VStr x, VStr y => String.eqb x y
  | _, _ => false
  end.

(** [actual] is the script statement [expected]. *)
Definition same_action (expected actual : action) : bool :=
  match expected, actual with
  | AWrite t v, AWrite t' v' => String.eqb t t' && value_eqb v v'
  | ASleep s, ASleep s' => PrimFloat.eqb s s'
  | ALog (LogLineStopped s), ALog (LogLineStopped s')
  | ALog (LogScenarioDone s), ALog (LogScenarioDone s')
  | ALog (LogLineRunning s), ALog (LogLineRunning s') => scenario_eqb s s'
  | _, _ => false
  end.

(** The tags only the scenario scripts write from the replay task. *)
Definition scenario_tags : list string :=
  [ process_nodes.Line_State;
    mma_nodes.MotorProtector_100; mma_nodes.MotorProtector_101;
    mma_nodes.MotorProtector_103; mma_nodes.ESTOP_Triggered;
    bas_nodes.PowerLoss; bas_nodes.ProfibusFault;
    mma_nodes.LevelTooHigh_LT100; mma_nodes.GuardDoorOpen_1;
    mma_nodes.OperatorPanelAccess; mma_nodes.GuardDoorReset ].

Definition scenario_action (a : action) : bool :=
  match a with
  | AWrite t _ => bool_decide (t ∈ scenario_tags)
  | ALog (LogScenarioTrigger _) | ALog (LogLineStopped _)
  | ALog (LogScenarioDone _) | ALog (LogLineRunning _) => true
  | _ => false
  end.

(** Where the scenarios stand: none is running and [next] is the one the
    alternator triggers next, or [s] is running and has executed [k]
    statements of its script. *)
Inductive phase :=
  | Idle (next : scenario)
  | Mid (s : scenario) (k : nat).

(** The observer of the replay task: a scenario starts only from [Idle] and
    only the one whose turn it is; once started, each statement of its
    script must follow in order, and nothing else from the replay task may
    intervene; outside a script no scenario statement may occur. [None] is
    a violation. *)
Definition monitor_step (ph : phase) (a : action) : option phase :=
  match ph with
  | Idle next =>
      match a with
      | ALog (LogScenarioTrigger s) =>
          if scenario_eqb s next then Some (Mid s 0) else None
      | _ => if scenario_action a then None else Some ph
      end
  | Mid s k =>
      match scenario_script s !! k with
      | Some expected =>
          if same_action expected a then
            Some (if bool_decide (S k = length (scenario_script s))
                  then Idle (other_scenario s) else Mid s (S k))
          else None
      | None => None
      end
  end.

Fixpoint monitor (ph : phase) (l : list action) : option phase :=
  match l with
  | [] => Some ph
  | a :: l' =>
      match monitor_step ph a with
      | Some ph' => monitor ph' l'
      | None => None
      end
  end.

(** A step of the engine and what it does to [current_alarms]. *)
Inductive step_label :=
  | StepActivate (alarm : KronesAlarm)
  | StepClear (alarm : KronesAlarm)
  | StepOther.

Inductive engine_step : server -> step_label -> server -> Prop :=
  | step_activate alarm deviation st :
      engine_step st (StepActivate alarm) (_activate_alarm alarm deviation st)
  | step_clear r alarm st :
      choice r (current_alarms st) = Some alarm ->
      engine_step st (StepClear alarm) (_clear_random_alarm r st)
  | step_counters st :
      engine_step st StepOther (_update_alarm_counters st)
  | step_production st :
      engine_step st StepOther (_simulate_production_tick st)
  | step_metrics round1 u_temp u_pressure st :
      engine_step st StepOther
        (_update_process_variables_tick round1 u_temp u_pressure st)
  | step_action a st :
      engine_step st StepOther (run_action st a).

(** The states the running engine passes through between iterations of its
    loops. *)
Inductive reachable (p : KronesAlarmDataParser) : loop_state * server -> Prop :=
  | reach_start t0 : reachable p (loop_init t0, server_start p)
  | reach_alarms now rnd s :
      reachable p s -> reachable p (alarm_iteration now rnd s)
  | reach_production ls st :
      reachable p (ls, st) -> reachable p (ls, _simulate_production_tick st)
  | reach_metrics round1 u_temp u_pressure ls st :
      reachable p (ls, st) ->
      reachable p
        (ls, _update_process_variables_tick round1 u_temp u_pressure st).

(** ** Sample data for running the model *)

(** An instance of the two [strptime] formats for zero-padded stamps
    ("MM/DD/YYYY HH:MM:SS" with an optional fraction of one to six digits),
    enough to run the parser on rows as the export writes them. *)
Module RefStrptime.

Definition num (s : string) : option Z :=
  if forallb PyStr.is_digit (list_ascii_of_string s)
  then PyStr.parse_digits s 0 false else None.

Definition days_from_civil (y m d : Z) : Z :=
  let y' := if m <=? 2 then y - 1 else y in
  let era := y' / 400 in
  let yoe := y' - era * 400 in
  let doy := (153 * (if 2 <? m then m - 3 else m + 9) + 2) / 5 + d - 1 in
  let doe := yoe * 365 + yoe / 4 - yoe / 100 + doy in
  era * 146097 + doe - 719468.

Definition sep (s : string) (i : nat) (c : string) : option unit :=
  if String.eqb (substring i 1 s) c then Some tt else None.

Definition in_range (lo hi x : Z) : option unit :=
  if (lo <=? x) && (x <=? hi) then Some tt else None.

Definition fraction (s : string) : option Z :=
  let n := String.length s in
  if ((1 <=? n) && (n <=? 6))%nat
  then z ← num s; Some (z * 10 ^ Z.of_nat (6 - n)) else None.

Definition parse (with_fraction : bool) (s : string) : option datetime :=
  mo ← num (substring 0 2 s); _ ← sep s 2 "/"; _ ← in_range 1 12 mo;
  d ← num (substring 3 2 s); _ ← sep s 5 "/"; _ ← in_range 1 31 d;
  y ← num (substring 6 4 s); _ ← sep s 10 " "; _ ← in_range 1 9999 y;
  h ← num (substring 11 2 s); _ ← sep s 13 ":"; _ ← in_range 0 23 h;
  mi ← num (substring 14 2 s); _ ← sep s 16 ":"; _ ← in_range 0 59 mi;
  se ← num (substring 17 2 s); _ ← in_range 0 59 se;
  us ← (if with_fraction then
          _ ← sep s 19 "."; fraction (substring 20 (String.length s - 20) s)
        else if (String.length s =? 19)%nat then Some 0 else None);
  Some ((((days_from_civil y mo d * 24 + h) * 60 + mi) * 60 + se) * 1000000
        + us).

Definition strptime_ms : string -> option datetime := parse true.
Definition strptime_s : string -> option datetime := parse false.

(** Not used by the sample rows: their cells are strings and integers. *)
Definition float_repr (f : float) : string := "".

End RefStrptime.

(** A row of the export: 38 columns, of which the parser reads seven. *)
Definition mk_row (atype comes goes modul msgnr event swref : cell) : row :=
  replicate 10 CNaN ++ [atype; comes] ++ replicate 7 CNaN ++ [goes]
  ++ replicate 14 CNaN ++ [modul; msgnr; event; swref].

Definition sample_row (i : Z) : row :=
  mk_row (CStr "Fault") (CStr "03/14/2024 10:15:30.250")
    (CStr "03/14/2024 10:15:31.251") (CStr "SDC") (CInt i)
    (CStr "Power supply fault") (CStr "REF").

Definition sample_row_bad_code : row :=
  mk_row (CStr "Fault") (CStr "03/14/2024 10:15:30.250") CNaN
    (CStr "SDC") (CStr "12A") (CStr "Power supply fault") (CStr "REF").

Definition sample_row_no_comes : row :=
  mk_row (CStr "Warning") CNaN CNaN (CStr "MMA") (CInt 7)
    (CStr "Guard door 1 open") (CStr "REF").




Definition sample_clock (i : nat) : datetime * datetime := (0, 0).

Definition sample_parse_row : row -> option KronesAlarm * list log_record :=
  _parse_alarm_row RefStrptime.strptime_ms RefStrptime.strptime_s
    RefStrptime.float_repr 0 0.

(** Loading a frame of 38 columns with the given rows. *)
Definition sample_load (rows : list row) : bool * KronesAlarmDataParser :=
  load_alarm_data RefStrptime.strptime_ms RefStrptime.strptime_s
    RefStrptime.float_repr (CsvFrame (mkFrame 38 rows)) sample_clock
    parser_init.

(** An alarm with the given module, message and activation time in
    microseconds. *)
Definition sample_alarm (m msg : string) (t : datetime) : KronesAlarm :=
  mkKronesAlarm m 1 "Fault" msg "REF" t None None.

(** ** Notions used in the statements *)

Definition timestamp_le (a b : KronesAlarm) : Prop :=
  comes_timestamp a <= comes_timestamp b.

(** The records the scan still holds: the closed sequences, then the running
    one. *)
Definition kept (st : scan_state) : list KronesAlarm :=
  concat (sequences st) ++ current_sequence st.

Definition three_alarms : KronesAlarmDataParser :=
  mkParser
    [ sample_alarm "SDC" "Servo drive fault" 600000000;
      sample_alarm "MMA" "Guard door 1 open" 0;
      sample_alarm "SDC" "Power supply fault" 300000000 ]
    ∅ [].

Fixpoint has_underscore (s : string) : bool :=
  match s with
  | EmptyString => false
  | String c r => Ascii.eqb c "_" || has_underscore r
  end.

(** The group of an [AlarmGroupKey]: the records of one module and one
    severity, in parse order. *)
Definition alarm_group (self : KronesAlarmDataParser) (m t : string)
    : list KronesAlarm :=
  filter (fun a => module a = m /\ alarm_type a = t) (alarms self).

Definition twelve_alarms : KronesAlarmDataParser :=
  mkParser
    (map (fun i => sample_alarm "SDC" "Power supply fault" (Z.of_nat i))
         (seq 0 12)
     ++ map (fun i => sample_alarm "MMA" "Guard door 1 open" (Z.of_nat i))
         (seq 0 4))
    ∅ [].

(** A string that holds a character which is no digit, no whitespace, no
    sign and no underscore (a letter, for instance). *)
Definition non_numeric (s : string) : Prop :=
  exists c, c ∈ list_ascii_of_string s
            /\ PyStr.is_digit c = false /\ PyStr.is_space c = false
            /\ c ∉ ["+"; "-"; "_"]%char.

(** The code cell of a row does not convert: [int(row.iloc[35])] raises. *)
Definition code_non_numeric (r : row) : bool :=
  match iloc r 35 with
  | inr c => match py_int c with inl _ => true | inr _ => false end
  | inl _ => false
  end.

(** A batch of 100 alarm-history rows, 5 of them with a code that is not a
    number. *)
Definition hundred_rows : list row :=
  replicate 40 (sample_row 1) ++ replicate 2 sample_row_bad_code
  ++ replicate 55 (sample_row 2) ++ replicate 3 sample_row_bad_code.

(** The tags a list of writes touches, and the tree after the writes. *)
Definition tags (ws : list (string * value)) : list string := map fst ws.

Definition apply_writes (ws : list (string * value)) (t : gmap string value)
    : gmap string value :=
  fold_left (fun t w => <[fst w := snd w]> t) ws t.

(** Clearing as the exact inverse of activation: it writes the tags that
    activation wrote and no other, each with its nominal value. *)
Definition clear_inverts_activation (deviation : float) (alarm : KronesAlarm)
    : Prop :=
  (forall tag, tag ∈ tags (clear_writes alarm)
               <-> tag ∈ tags (activation_writes deviation alarm))
  /\ forall tag v, (tag, v) ∈ clear_writes alarm ->
                   initial_tree !! tag = Some v.

Definition sdc_power_alarm : KronesAlarm :=
  sample_alarm "SDC" "Power supply fault" 300000000.

(** Several engine steps in a row, with their labels. *)
Inductive engine_steps : server -> list step_label -> server -> Prop :=
  | steps_nil st : engine_steps st [] st
  | steps_cons st l st' ls st'' :
      engine_step st l st' -> engine_steps st' ls st'' ->
      engine_steps st (l :: ls) st''.

(** What a step does to the list of active alarms. *)
Definition label_effect (l : step_label) (current : list KronesAlarm)
    : list KronesAlarm :=
  match l with
  | StepActivate alarm => current ++ [alarm]
  | StepClear alarm => list_remove alarm current
  | StepOther => current
  end.

Definition sample_rand : tick_rand := mkRand 0 0 2 (fun _ => 7.5%float).

(** The production rate as the product it is computed from: the integer
    [production_rate] equals the float [18000 * efficiency]. *)
Definition rate_is_product (n : nat) : Prop :=
  exists r, production_rate_of n = ok r
            /\ PrimFloat.eqb (PyFloat.of_int r)
                 (PyFloat.of_int base_production_rate * efficiency_factor n)
               = true.

(** The scenario the alternator triggers next. *)
Definition next_scenario (ls : loop_state) : scenario :=
  if scenario_toggle ls then ScenarioB else ScenarioA.

(** The replay task went from [st] to [st'] without a scenario statement. *)
Definition quiet_run (st st' : server) : Prop :=
  exists l, trace st' = trace st ++ l
            /\ Forall (fun a => scenario_action a = false) l.

(** A run of the engine in which the clock passes the scenario interval
    at the second and at the fourth iteration of the replay loop. *)
Definition sample_inputs : list (float * tick_rand) :=
  [ (1%float, sample_rand); (32%float, sample_rand);
    (43%float, sample_rand); (63%float, sample_rand) ].

Definition sample_run : list action :=
  trace (snd (_simulate_real_alarms sample_inputs 0 (server_start three_alarms))).

(** A system trace of that run up to the dwell of scenario A, with a
    production tick of the other task in between. *)
Definition sample_system_trace : list event :=
  map (pair TAlarms) (take 38 sample_run)
  ++ [(TProduction, AWrite process_nodes.Line_State (VStr "RUNNING"))]
  ++ map (pair TAlarms) (take 2 (drop 38 sample_run)).

(** Two records in time order and at most 300 s apart. *)
Definition gap_ok (a b : KronesAlarm) : Prop :=
  0 <= comes_timestamp b - comes_timestamp a <= 300 * 1000000.

(** Every record of the list is followed by one at most 300 s later. *)
Fixpoint chain (l : list KronesAlarm) : Prop :=
  match l with
  | a :: l' =>
      match l' with
      | b :: _ => gap_ok a b /\ chain l'
      | [] => True
      end
  | [] => True
  end.

(** The second run starts more than 300 s after the end of the first. *)
Definition gap_apart (r1 r2 : list KronesAlarm) : Prop :=
  forall a b, last r1 = Some a -> head r2 = Some b ->
    comes_timestamp b - comes_timestamp a > 300 * 1000000.

Fixpoint separated (runs : list (list KronesAlarm)) : Prop :=
  match runs with
  | r1 :: rest =>
      match rest with
      | r2 :: _ => gap_apart r1 r2 /\ separated rest
      | [] => True
      end
  | [] => True
  end.

Definition long_run (r : list KronesAlarm) : Prop := (3 ≤ length r)%nat.

(** The number of active alarms after one iteration of the replay loop
    started in [st]: the members of the drawn sequence that are replayed,
    one alarm less when anything is active, one more when the parser has
    records. *)
Definition iteration_count (st : server) (rnd : tick_rand) : nat :=
  let replayed :=
    match choice (r_seq rnd) (alarm_sequences st) with
    | Some sequence => Nat.min 5 (length sequence)
    | None => 0%nat
    end in
  let picked :=
    match alarm_parser st with
    | Some p => match alarms p with [] => 0%nat | _ :: _ => 1%nat end
    | None => 0%nat
    end in
  (Nat.pred (length (current_alarms st) + replayed) + picked)%nat.

(** The label [_simulate_production] writes to the machine-state tag. *)
Definition machine_state_label (current : list KronesAlarm) : string :=
  if 0 <? count is_fault current then "FAULT"
  else if bool_decide (0 < length current)%nat then "WARNING"
  else "RUNNING".

(** The tag writes among the statements of a script. *)
Definition script_writes (script : list action) : list (string * value) :=
  omap (fun a => match a with
                 | AWrite tag v => Some (tag, v)
                 | _ => None
                 end) script.

(** The strings of a list in the order of their first occurrence, each
    once. *)
Fixpoint first_occurrences (l : list string) : list string :=
  match l with
  | [] => []
  | x :: l' => x :: filter (fun y => y ≠ x) (first_occurrences l')
  end.

(** The value of the last write to [tag] in a list of writes. *)
Definition last_write (tag : string) (ws : list (string * value))
    : option value :=
  fold_left (fun acc w => if decide (fst w = tag) then Some (snd w) else acc)
    ws None.

(** What the production loop and the metrics loop may do between two
    statements of a scenario script: an action that is no write to a
    scenario tag, except that the line state may be written as "RUNNING",
    or an update of the production figures. *)
Definition other_task_action (a : action) : Prop :=
  match a with
  | AWrite tag v =>
      tag ∉ scenario_tags
      \/ (tag = process_nodes.Line_State /\ v = VStr "RUNNING")
  | _ => True
  end.

Inductive other_task_step : server -> server -> Prop :=
  | other_action a st :
      other_task_action a -> other_task_step st (run_action st a)
  | other_rate r st : other_task_step st (set_production_rate r st)
  | other_total t st : other_task_step st (set_total_production t st).

(** A run of a script from [st] to [st']: its statements in order, with
    steps of the other coroutines before, between and after them. *)
Inductive script_run : list action -> server -> server -> Prop :=
  | run_end st : script_run [] st st
  | run_statement a script st st' :
      script_run script (run_action st a) st' ->
      script_run (a :: script) st st'
  | run_other script st st1 st' :
      other_task_step st st1 -> script_run script st1 st' ->
      script_run script st st'.

(** * Properties *)

(** ** The alarm record *)

Lemma KronesAlarm_new_without_goes m n ty msg ref comes :
  KronesAlarm_new m n ty msg ref comes None
  = ok (mkKronesAlarm m n ty msg ref comes None None).
Proof. reflexivity. Qed.

Lemma KronesAlarm_new_duration m n ty msg ref comes goes a :
  KronesAlarm_new m n ty msg ref comes (Some goes) = ok a ->
  PyFloat.to_int (total_seconds (goes - comes) * PyFloat.of_int 1000)
  = ok (default 0 (duration_ms a))
  /\ is_Some (duration_ms a).
Proof.
  unfold KronesAlarm_new, __post_init__, rbind, ok; simpl.
  destruct (PyFloat.to_int _) as [e | d]; [discriminate |].
  intros [= <-]; simpl. eauto.
Qed.

(** C7. A record whose clear timestamp is 1.001 s after its activation
    timestamp (1001 ms, a difference the export format can express) is
    built with [duration_ms = 1000]: the product
    [delta.total_seconds() * 1000] is the float just below 1001 and [int]
    truncates it. The same holds for the record parsed from a row with
    these two stamps. *)
Theorem duration_ms_one_short :
  let comes := 1710411330250000 in
  let goes := 1710411331251000 in
  (goes - comes) / 1000 = 1001
  /\ (goes - comes) mod 1000 = 0
  /\ KronesAlarm_new "SDC" 3 "Fault" "Power supply fault" "REF" comes (Some goes)
     = ok (mkKronesAlarm "SDC" 3 "Fault" "Power supply fault" "REF" comes
             (Some goes) (Some 1000))
  /\ fst (sample_parse_row (sample_row 3))
     = Some (mkKronesAlarm "SDC" 3 "Fault" "Power supply fault" "REF" comes
               (Some goes) (Some 1000)).
Proof. vm_compute. repeat split; reflexivity. Qed.

(** ** Cascading sequences *)

Lemma insert_by_timestamp_perm a l : insert_by_timestamp a l ≡ₚ a :: l.
Proof.
  induction l as [| b l IH]; simpl; [done |].
  destruct (comes_timestamp a <=? comes_timestamp b); [done |].
  rewrite IH. apply Permutation_swap.
Qed.

Lemma sorted_alarms_perm l : sorted_alarms l ≡ₚ l.
Proof.
  induction l as [| a l IH]; simpl; [done |].
  rewrite insert_by_timestamp_perm. by rewrite IH.
Qed.

Lemma insert_by_timestamp_sorted a l :
  Sorted timestamp_le l -> Sorted timestamp_le (insert_by_timestamp a l).
Proof.
  induction 1 as [| b l Hs IH Hb]; simpl; [repeat constructor |].
  destruct (Z.leb_spec (comes_timestamp a) (comes_timestamp b)).
  - repeat constructor; done.
  - constructor; [done |].
    destruct Hb as [| c l Hbc]; simpl in *.
    + constructor. unfold timestamp_le. lia.
    + destruct (Z.leb_spec (comes_timestamp a) (comes_timestamp c));
        constructor; unfold timestamp_le; lia || done.
Qed.

Lemma sorted_alarms_sorted l : Sorted timestamp_le (sorted_alarms l).
Proof.
  induction l; simpl; [constructor |]. by apply insert_by_timestamp_sorted.
Qed.

Lemma flush_sublist seqs cur :
  concat (flush seqs cur) `sublist_of` concat seqs ++ cur.
Proof.
  unfold flush. case_bool_decide.
  - rewrite concat_app. simpl. by rewrite app_nil_r.
  - by apply sublist_inserts_r.
Qed.

Lemma flush_lengths seqs cur :
  Forall (fun s => 3 ≤ length s)%nat seqs ->
  Forall (fun s => 3 ≤ length s)%nat (flush seqs cur).
Proof.
  intros H. unfold flush. case_bool_decide; [| done].
  apply Forall_app. split; [done |]. by constructor.
Qed.

Lemma cascade_step_kept st a :
  kept (cascade_step st a) `sublist_of` kept st ++ [a].
Proof.
  unfold cascade_step, kept.
  destruct (last_timestamp st) as [last |]; simpl.
  - destruct (within_gap _); simpl.
    + by rewrite app_assoc.
    + apply sublist_app; [apply flush_sublist | done].
  - apply sublist_app; [by apply sublist_inserts_r | done].
Qed.

Lemma cascade_step_lengths st a :
  Forall (fun s => 3 ≤ length s)%nat (sequences st) ->
  Forall (fun s => 3 ≤ length s)%nat (sequences (cascade_step st a)).
Proof.
  intros H. unfold cascade_step.
  destruct (last_timestamp st); simpl; [| done].
  destruct (within_gap _); simpl; [done |]. by apply flush_lengths.
Qed.

Lemma fold_cascade_kept l st :
  kept (fold_left cascade_step l st) `sublist_of` kept st ++ l.
Proof.
  revert st. induction l as [| a l IH]; intros st; simpl.
  - by rewrite app_nil_r.
  - etrans; [apply IH |].
    rewrite (cons_middle a (kept st) l), app_assoc.
    apply sublist_app; [apply cascade_step_kept | done].
Qed.

Lemma fold_cascade_lengths l st :
  Forall (fun s => 3 ≤ length s)%nat (sequences st) ->
  Forall (fun s => 3 ≤ length s)%nat (sequences (fold_left cascade_step l st)).
Proof.
  revert st. induction l as [| a l IH]; intros st H; simpl; [done |].
  apply IH. by apply cascade_step_lengths.
Qed.

Lemma NoDup_concat_disjoint {A} (ls : list (list A)) i j s1 s2 :
  NoDup (concat ls) -> i ≠ j ->
  ls !! i = Some s1 -> ls !! j = Some s2 -> s1 ## s2.
Proof.
  revert i j. induction ls as [| s ls IH]; intros i j Hnd Hij Hi Hj; [done |].
  simpl in Hnd. apply NoDup_app in Hnd as (_ & Hdisj & Hnd).
  assert (Hin : forall k t, ls !! k = Some t -> t ⊆ concat ls).
  { intros k t Hk x Hx. apply list_elem_of_In, in_concat.
    exists t. split; apply list_elem_of_In; [| done].
    by eapply list_elem_of_lookup_2. }
  destruct i as [| i], j as [| j]; simpl in *; simplify_eq.
  - intros x Hx1 Hx2. eapply Hdisj; [done |]. by eapply Hin.
  - intros x Hx1 Hx2. eapply Hdisj; [done |]. by eapply Hin.
  - apply (IH i j); [done | congruence | done | done].
Qed.

(** C1. Every sequence that [get_cascading_sequences] returns has at least
    three members; the members of all sequences, concatenated in order, are
    a subsequence of the records sorted by activation time (each position of
    the sorted list is used at most once); and when the parsed records are
    distinct, no record occurs twice in the concatenation and any two
    sequences are disjoint. *)
Theorem cascading_sequences_partition (self : KronesAlarmDataParser) :
  let seqs := get_cascading_sequences self in
  Forall (fun s => 3 ≤ length s)%nat seqs
  /\ concat seqs `sublist_of` sorted_alarms (alarms self)
  /\ (NoDup (alarms self) ->
      NoDup (concat seqs)
      /\ forall i j s1 s2, i ≠ j ->
           seqs !! i = Some s1 -> seqs !! j = Some s2 -> s1 ## s2).
Proof.
  intros seqs. subst seqs. unfold get_cascading_sequences, cascade_scan.
  set (l := sorted_alarms (alarms self)).
  set (st := fold_left cascade_step l scan_init).
  assert (Hsub : concat (flush (sequences st) (current_sequence st))
                 `sublist_of` l).
  { etrans; [apply flush_sublist |]. apply (fold_cascade_kept l scan_init). }
  split; [| split; [done |]].
  - apply flush_lengths, fold_cascade_lengths. constructor.
  - intros Hnd.
    assert (NoDup (concat (flush (sequences st) (current_sequence st)))).
    { apply (sublist_NoDup _ l); [| done]. subst l. by rewrite sorted_alarms_perm. }
    split; [done |]. intros i j s1 s2. by apply NoDup_concat_disjoint.
Qed.

Lemma cascading_sequences_partition_witness :
  NoDup (alarms three_alarms)
  /\ get_cascading_sequences three_alarms
     = [[ sample_alarm "MMA" "Guard door 1 open" 0;
          sample_alarm "SDC" "Power supply fault" 300000000;
          sample_alarm "SDC" "Servo drive fault" 600000000 ]]
  /\ NoDup (concat (get_cascading_sequences three_alarms)).
Proof.
  assert (Hnd : NoDup (alarms three_alarms)).
  { apply (bool_decide_unpack _). vm_compute. exact I. }
  split; [exact Hnd |]. split; [reflexivity |].
  exact (proj1 (proj2 (proj2 (cascading_sequences_partition three_alarms)) Hnd)).
Defined.

(** The microsecond comparison of [within_gap] and the float comparison the
    source writes agree around the threshold. *)
Lemma within_gap_float_boundary :
  Forall (fun d => PrimFloat.leb (total_seconds d) 300 = within_gap d)
    [0; 299999999; 300000000; 300000001; 300001000; 86400000000].
Proof. repeat constructor. Qed.

Lemma cascade_scan_snoc l a :
  cascade_scan (l ++ [a]) = cascade_step (cascade_scan l) a.
Proof. unfold cascade_scan. by rewrite fold_left_app. Qed.

Lemma cascade_step_last st a :
  last_timestamp (cascade_step st a) = Some (comes_timestamp a)
  /\ last (current_sequence (cascade_step st a)) = Some a.
Proof.
  unfold cascade_step. destruct (last_timestamp st); simpl; [| done].
  destruct (within_gap _); simpl; [| done]. by rewrite last_snoc.
Qed.

(** C2. When the scan reaches record [b] right after record [a]: [a] is the
    last member of the running sequence; if [b] was activated at most 300 s
    after [a] (in particular exactly 300 s after it), [b] is appended to the
    running sequence and no sequence is closed; if the gap is greater than
    300 s, however little, the running sequence is closed (kept when it has
    three members or more) and [b] starts the new one. *)
Theorem gap_tie_break (pre : list KronesAlarm) (a b : KronesAlarm) :
  let st := cascade_scan (pre ++ [a]) in
  cascade_scan (pre ++ [a; b]) = cascade_step st b
  /\ last (current_sequence st) = Some a
  /\ (comes_timestamp b - comes_timestamp a <= 300 * 1000000 ->
      cascade_step st b
      = mkScan (sequences st) (current_sequence st ++ [b])
          (Some (comes_timestamp b)))
  /\ (comes_timestamp b - comes_timestamp a > 300 * 1000000 ->
      cascade_step st b
      = mkScan (flush (sequences st) (current_sequence st)) [b]
          (Some (comes_timestamp b))).
Proof.
  intros st. subst st.
  rewrite (cons_middle a pre [b]), app_assoc, !cascade_scan_snoc.
  set (st0 := cascade_scan pre).
  destruct (cascade_step_last st0 a) as [Hts Hlast].
  split; [done |]. split; [done |].
  split; intros Hgap; unfold cascade_step at 1; rewrite Hts;
    unfold within_gap.
  - by rewrite (proj2 (Z.leb_le _ _) Hgap).
  - destruct (Z.leb_spec (comes_timestamp b - comes_timestamp a)
                (300 * 1000000)); [lia | done].
Qed.

Lemma gap_tie_break_witness :
  let a0 := sample_alarm "MMA" "Guard door 1 open" 0 in
  let a1 := sample_alarm "MMA" "Guard door 1 open" 1000000 in
  let b_tie := sample_alarm "SDC" "Power supply fault" 301000000 in
  let b_late := sample_alarm "SDC" "Power supply fault" 301001000 in
  cascade_step (cascade_scan [a0; a1]) b_tie
  = mkScan [] [a0; a1; b_tie] (Some 301000000)
  /\ cascade_step (cascade_scan [a0; a1]) b_late
     = mkScan [] [b_late] (Some 301001000).
Proof.
  intros a0 a1 b_tie b_late. split.
  - apply (proj1 (proj2 (proj2 (gap_tie_break [a0] a1 b_tie)))).
    vm_compute. discriminate.
  - apply (proj2 (proj2 (proj2 (gap_tie_break [a0] a1 b_late)))).
    reflexivity.
Defined.

(** ** Common patterns *)

Lemma add_to_patterns_lookup patterns a key :
  default [] (add_to_patterns patterns a !! key)
  = default [] (patterns !! key)
    ++ (if decide (pattern_key a = key) then [a] else []).
Proof.
  unfold add_to_patterns.
  destruct (decide (pattern_key a = key)) as [<- | Hne].
  - rewrite lookup_insert_eq. simpl.
    destruct (patterns !! pattern_key a) eqn:E; [by rewrite E |].
    by rewrite lookup_insert_eq.
  - rewrite lookup_insert_ne by done.
    destruct (patterns !! pattern_key a); rewrite ?lookup_insert_ne by done;
      by rewrite app_nil_r.
Qed.

Lemma add_to_patterns_nonempty patterns a key l :
  (forall k l, patterns !! k = Some l -> l ≠ []) ->
  add_to_patterns patterns a !! key = Some l -> l ≠ [].
Proof.
  intros Hne. unfold add_to_patterns.
  destruct (decide (pattern_key a = key)) as [<- | Hk].
  - rewrite lookup_insert_eq. intros [= <-]. by destruct (default _ _).
  - rewrite lookup_insert_ne by done.
    destruct (patterns !! pattern_key a); rewrite ?lookup_insert_ne by done;
      apply Hne.
Qed.

Lemma build_patterns_lookup l patterns key :
  default [] (fold_left add_to_patterns l patterns !! key)
  = default [] (patterns !! key) ++ filter (fun a => pattern_key a = key) l.
Proof.
  revert patterns. induction l as [| a l IH]; intros patterns; simpl.
  - by rewrite app_nil_r.
  - rewrite IH, add_to_patterns_lookup, <- app_assoc. f_equal.
    rewrite filter_cons. by destruct (decide _).
Qed.

Lemma build_patterns_nonempty l patterns key g :
  (forall k l, patterns !! k = Some l -> l ≠ []) ->
  fold_left add_to_patterns l patterns !! key = Some g -> g ≠ [].
Proof.
  revert patterns. induction l as [| a l IH]; intros patterns Hne; simpl.
  - apply Hne.
  - apply IH. intros k l'. by apply add_to_patterns_nonempty.
Qed.

Lemma common_lookup (self : KronesAlarmDataParser) key :
  get_common_alarms self !! key
  = (let g := default [] (alarm_patterns self !! key) in
     if bool_decide (5 ≤ length g)%nat then Some (take 10 g) else None).
Proof.
  unfold get_common_alarms. rewrite lookup_omap.
  by destruct (alarm_patterns self !! key).
Qed.

Lemma has_underscore_app s1 s2 : has_underscore (s1 +:+ "_" +:+ s2) = true.
Proof.
  induction s1 as [| c s1 IH]; [done |].
  change (Ascii.eqb c "_" || has_underscore (s1 +:+ "_" +:+ s2) = true).
  by rewrite IH, orb_true_r.
Qed.

Lemma key_inj m1 t1 m2 t2 :
  has_underscore t1 = false -> has_underscore t2 = false ->
  m1 +:+ "_" +:+ t1 = m2 +:+ "_" +:+ t2 -> m1 = m2 /\ t1 = t2.
Proof.
  intros H1 H2. revert m2.
  induction m1 as [| c m1 IH]; intros [| c2 m2] E.
  - change (String "_" t1 = String "_" t2) in E. by injection E as ->.
  - change (String "_" t1 = String c2 (m2 +:+ "_" +:+ t2)) in E.
    injection E as _ ->. by rewrite has_underscore_app in H1.
  - change (String c (m1 +:+ "_" +:+ t1) = String "_" t2) in E.
    injection E as _ <-. by rewrite has_underscore_app in H2.
  - change (String c (m1 +:+ "_" +:+ t1) = String c2 (m2 +:+ "_" +:+ t2)) in E.
    injection E as -> E. by destruct (IH m2 E) as [-> ->].
Qed.

Lemma severity_no_underscore t : t ∈ severities -> has_underscore t = false.
Proof.
  unfold severities. rewrite !elem_of_cons, elem_of_nil.
  intros [-> | [-> | [-> | [-> | [-> | []]]]]]; reflexivity.
Qed.

Lemma pattern_key_group a m t :
  alarm_type a ∈ severities -> t ∈ severities ->
  pattern_key a = m +:+ "_" +:+ t <-> module a = m /\ alarm_type a = t.
Proof.
  intros Ha Ht. unfold pattern_key. split.
  - by apply key_inj; apply severity_no_underscore.
  - by intros [-> ->].
Qed.

Lemma group_by_key (self : KronesAlarmDataParser) m t :
  Forall (fun a => alarm_type a ∈ severities) (alarms self) ->
  t ∈ severities ->
  filter (fun a => pattern_key a = m +:+ "_" +:+ t) (alarms self)
  = alarm_group self m t.
Proof.
  intros Hall Ht. unfold alarm_group.
  induction Hall as [| a l Ha Hall IH]; [done |].
  rewrite !filter_cons, IH.
  destruct (decide (pattern_key a = _)) as [E | E],
           (decide (module a = m /\ alarm_type a = t)) as [E' | E']; try done.
  - by apply pattern_key_group in E.
  - by apply pattern_key_group in E'.
Qed.

(** C6. For a parser whose pattern index was built from its records (all of
    a known severity): every common pattern is the pattern of some record's
    group; the group of module [m] and severity [t] is a common pattern
    exactly when it has at least 5 records, and the pattern is then its
    first 10 records in parse order, min(n, 10) of them; a group of 12
    yields its first 10 records and a group of 4 yields nothing. *)
Theorem common_alarms_cap (self : KronesAlarmDataParser) :
  alarm_patterns self = ∅ ->
  Forall (fun a => alarm_type a ∈ severities) (alarms self) ->
  let common := get_common_alarms (_build_alarm_patterns self) in
  (forall key l, common !! key = Some l ->
     exists a, a ∈ alarms self /\ key = pattern_key a)
  /\ forall m t, t ∈ severities ->
       let group := alarm_group self m t in
       let key := m +:+ "_" +:+ t in
       (common !! key
        = if bool_decide (5 ≤ length group)%nat
          then Some (take 10 group) else None)
       /\ (forall l, common !! key = Some l ->
             length l = Nat.min (length group) 10)
       /\ (length group = 12%nat ->
             exists l, common !! key = Some l /\ length l = 10%nat
                       /\ l = take 10 group)
       /\ (length group = 4%nat -> common !! key = None).
Proof.
  intros Hempty Hsev common.
  assert (Hlook : forall key,
    common !! key
    = (let g := filter (fun a => pattern_key a = key) (alarms self) in
       if bool_decide (5 ≤ length g)%nat then Some (take 10 g) else None)).
  { intros key. subst common. rewrite common_lookup. simpl.
    by rewrite build_patterns_lookup, Hempty, lookup_empty. }
  split.
  - intros key l. rewrite Hlook. simpl. case_bool_decide; [| done].
    intros _.
    destruct (filter (fun a => pattern_key a = key) (alarms self))
      as [| a g] eqn:E; [simpl in *; lia |].
    assert (Ha : a ∈ filter (fun a => pattern_key a = key) (alarms self))
      by (rewrite E; left).
    apply list_elem_of_filter in Ha as [Hk Hin]. by exists a.
  - intros m t Ht group key.
    assert (Hkey : common !! key
      = if bool_decide (5 ≤ length group)%nat
        then Some (take 10 group) else None).
    { subst key group. by rewrite Hlook, group_by_key. }
    split; [done |]. rewrite Hkey. repeat split.
    + intros l. case_bool_decide; [| done]. intros [= <-].
      rewrite length_take. lia.
    + intros Hlen. rewrite bool_decide_eq_true_2 by lia.
      eexists. split; [done |]. split; [| done]. rewrite length_take. lia.
    + intros Hlen. by rewrite bool_decide_eq_false_2 by lia.
Qed.

Lemma common_alarms_cap_witness :
  get_common_alarms (_build_alarm_patterns twelve_alarms) !! "SDC_Fault"
  = Some (take 10 (alarm_group twelve_alarms "SDC" "Fault"))
  /\ get_common_alarms (_build_alarm_patterns twelve_alarms) !! "MMA_Fault"
     = None.
Proof.
  assert (Hsev : Forall (fun a => alarm_type a ∈ severities)
                   (alarms twelve_alarms)).
  { apply (bool_decide_unpack _). vm_compute. exact I. }
  assert (Hf : "Fault" ∈ severities).
  { apply (bool_decide_unpack _). vm_compute. exact I. }
  destruct (common_alarms_cap twelve_alarms eq_refl Hsev) as [_ H].
  split.
  - destruct (H "SDC" "Fault" Hf) as (_ & _ & H12 & _).
    destruct (H12 eq_refl) as (l & Hl & _ & ->). exact Hl.
  - destruct (H "MMA" "Fault" Hf) as (_ & _ & _ & H4). exact (H4 eq_refl).
Defined.

(** ** The row parser *)

Lemma iloc_ok_below r i c j :
  iloc r i = ok c -> (j ≤ i)%nat -> exists c', iloc r j = ok c'.
Proof.
  unfold iloc. destruct (r !! i) eqn:E; [| done]. intros _ Hj.
  apply lookup_lt_Some in E.
  destruct (lookup_lt_is_Some_2 r j) as [c' ->]; [lia |]. by exists c'.
Qed.

Lemma qualifies_inv r :
  qualifies r = ok true ->
  exists c10 c34 c35 c36,
    iloc r 10 = ok c10 /\ iloc r 34 = ok c34 /\ iloc r 35 = ok c35
    /\ iloc r 36 = ok c36
    /\ isin c10 severities = true /\ notna c34 = true
    /\ notna c35 = true /\ notna c36 = true.
Proof.
  unfold qualifies, rbind, ok.
  destruct (iloc r 10) as [| c10]; [done |].
  destruct (iloc r 34) as [| c34]; [done |].
  destruct (iloc r 35) as [| c35]; [done |].
  destruct (iloc r 36) as [| c36]; [done |].
  intros [= H]. apply andb_prop in H as [H H36].
  apply andb_prop in H as [H H35]. apply andb_prop in H as [H10 H34].
  by exists c10, c34, c35, c36.
Qed.

Lemma filter_alarm_rows_all rows :
  Forall (fun r => qualifies r = ok true) rows ->
  filter_alarm_rows rows = ok rows.
Proof.
  induction 1 as [| r rows Hr _ IH]; [done |]. simpl. by rewrite Hr, IH.
Qed.

Lemma parse_digits_bad_char (s : string) (c : ascii) :
  c ∈ list_ascii_of_string s -> PyStr.is_digit c = false ->
  c ≠ "_"%char ->
  forall acc b, PyStr.parse_digits s acc b = None.
Proof.
  intros Hin Hd Hu. induction s as [| a r IH]; intros acc b.
  - by apply elem_of_nil in Hin.
  - simpl in Hin. apply elem_of_cons in Hin as [<- | Hin].
    + simpl. rewrite Hd.
      by rewrite (proj2 (Ascii.eqb_neq c "_") Hu).
    + simpl. destruct (PyStr.is_digit a); [by apply IH |].
      destruct (Ascii.eqb a "_" && b); [by apply IH | done].
Qed.

Lemma lstrip_keeps (s : string) (c : ascii) :
  c ∈ list_ascii_of_string s -> PyStr.is_space c = false ->
  c ∈ list_ascii_of_string (PyStr.lstrip s).
Proof.
  intros Hin Hs. induction s as [| a r IH]; [done |].
  simpl. destruct (PyStr.is_space a) eqn:Ha; [| done].
  apply IH. simpl in Hin. apply elem_of_cons in Hin as [-> | Hin]; [| done].
  congruence.
Qed.

Lemma rev_keeps (s : string) (c : ascii) :
  c ∈ list_ascii_of_string s -> c ∈ list_ascii_of_string (PyStr.rev s).
Proof.
  unfold PyStr.rev. rewrite list_ascii_of_string_of_list_ascii.
  rewrite !list_elem_of_In. apply in_rev.
Qed.

Lemma to_int_non_numeric (s : string) :
  non_numeric s -> PyStr.to_int s = raise ValueError.
Proof.
  intros (c & Hin & Hd & Hs & Hsign).
  assert (Hbody : c ∈ list_ascii_of_string (PyStr.strip s)).
  { unfold PyStr.strip.
    apply rev_keeps, lstrip_keeps; [| done].
    apply rev_keeps, lstrip_keeps; done. }
  assert (Hu : c ≠ "_"%char).
  { intros ->. apply Hsign. rewrite !elem_of_cons. tauto. }
  unfold PyStr.to_int. destruct (PyStr.strip s) as [| a r]; [done |].
  assert (Hr : c = a \/ c ∈ list_ascii_of_string r).
  { simpl in Hbody. by apply elem_of_cons in Hbody. }
  assert (Hfull : forall acc b, PyStr.parse_digits (String a r) acc b = None)
    by (by apply (parse_digits_bad_char _ c)).
  assert (Htail : a = "+"%char \/ a = "-"%char ->
                  forall acc b, PyStr.parse_digits r acc b = None).
  { intros Ha. apply (parse_digits_bad_char _ c); [| done | done].
    destruct Hr as [-> | Hr]; [| done].
    exfalso. apply Hsign. rewrite !elem_of_cons. tauto. }
  destruct a as [[] [] [] [] [] [] [] []];
    first [ by rewrite Hfull | by rewrite Htail by tauto ].
Qed.

Section ParserFacts.

Variable strptime_ms : string -> option datetime.
Variable strptime_s : string -> option datetime.
Variable float_repr : float -> string.

Abbreviation parse_body := (parse_alarm_row_body strptime_ms strptime_s float_repr).
Abbreviation parse_row := (_parse_alarm_row strptime_ms strptime_s float_repr).
Abbreviation rows_loop := (parse_rows strptime_ms strptime_s float_repr).
Abbreviation load := (load_alarm_data strptime_ms strptime_s float_repr).
Abbreviation str := (py_str float_repr).

Lemma parse_row_some now_c now_g r a :
  fst (parse_row now_c now_g r) = Some a ->
  parse_row now_c now_g r = (Some a, []).
Proof.
  unfold _parse_alarm_row.
  destruct (parse_body now_c now_g r) as [e | res]; simpl; [done |].
  by intros ->.
Qed.

Lemma parse_body_missing_comes now_c now_g r c :
  qualifies r = ok true -> iloc r 11 = ok c ->
  str c = "nan" \/ str c = "" ->
  parse_body now_c now_g r = ok None.
Proof.
  intros Hq H11 Hmiss.
  destruct (qualifies_inv r Hq) as (c10 & c34 & c35 & c36 & _ & H34 & _).
  destruct (iloc_ok_below r 34 c34 19 H34) as [c19 H19]; [lia |].
  unfold parse_alarm_row_body. rewrite H11, H19. simpl.
  destruct Hmiss as [-> | ->]; reflexivity.
Qed.

Lemma parse_body_bad_code now_c now_g r c :
  qualifies r = ok true -> iloc r 11 = ok c ->
  str c ≠ "nan" -> str c ≠ "" ->
  code_non_numeric r = true ->
  exists e, parse_body now_c now_g r = raise e.
Proof.
  intros Hq H11 Hnan Hempty Hbad.
  destruct (qualifies_inv r Hq) as (c10 & c34 & c35 & c36 & _ & H34 & H35 & _).
  destruct (iloc_ok_below r 34 c34 19 H34) as [c19 H19]; [lia |].
  unfold code_non_numeric in Hbad. rewrite H35 in Hbad. simpl in Hbad.
  destruct (py_int c35) as [e |] eqn:Hint; [| done].
  exists e. unfold parse_alarm_row_body. rewrite H11, H19. simpl.
  rewrite (bool_decide_eq_false_2 _ Hnan), (bool_decide_eq_false_2 _ Hempty).
  simpl. by rewrite H34, H35; simpl; rewrite Hint.
Qed.

(** The row loop appends, row by row, the record of each row that yields
    one and the log lines of each row: a row that raises leaves the records
    untouched and the loop goes on with the next row. *)
Lemma parse_rows_cons clock i r rows self :
  rows_loop clock i (r :: rows) self
  = rows_loop clock (S i) rows
      (mkParser
         (alarms self
          ++ option_list (fst (parse_row (fst (clock i)) (snd (clock i)) r)))
         (alarm_patterns self)
         (parser_log self
          ++ snd (parse_row (fst (clock i)) (snd (clock i)) r))).
Proof.
  simpl. destruct (parse_row _ _ r) as [[a |] logged]; simpl; [done |].
  by rewrite app_nil_r.
Qed.

Lemma logged_skips_app self l :
  logged_skips (mkParser (alarms self) (alarm_patterns self)
                  (parser_log self ++ l))
  = (logged_skips self + length (filter (fun rec => is_skip rec = true) l))%nat.
Proof. unfold logged_skips. simpl. by rewrite filter_app, length_app. Qed.

Lemma parse_rows_counts clock i rows self :
  Forall (fun r => forall now_c now_g,
            if code_non_numeric r
            then exists e, parse_body now_c now_g r = raise e
            else exists a, parse_body now_c now_g r = ok (Some a)) rows ->
  let self' := rows_loop clock i rows self in
  let bad := filter (fun r => code_non_numeric r = true) rows in
  (length (alarms self') + length bad
   = length (alarms self) + length rows)%nat
  /\ logged_skips self' = (logged_skips self + length bad)%nat
  /\ alarm_patterns self' = alarm_patterns self.
Proof.
  intros Hrows. revert i self.
  induction Hrows as [| r rows Hr _ IH]; intros i self.
  - simpl. unfold logged_skips. repeat split; lia.
  - rewrite parse_rows_cons. cbv zeta in IH |- *.
    specialize (Hr (fst (clock i)) (snd (clock i))).
    unfold _parse_alarm_row.
    destruct (code_non_numeric r) eqn:Hbad.
    + destruct Hr as [e ->]. simpl.
      rewrite filter_cons_True by done.
      destruct (IH (S i)
                  (mkParser (alarms self ++ []) (alarm_patterns self)
                     (parser_log self ++ [(DEBUG, MsgErrorParsingRow e)])))
        as (Hlen & Hskips & Hpat).
      rewrite Hskips, Hpat. simpl in *.
      rewrite length_app in Hlen. simpl in Hlen.
      unfold logged_skips at 1. simpl. rewrite filter_app, length_app.
      rewrite (filter_cons_True (fun rec => is_skip rec = true)) by done.
      simpl. unfold logged_skips. repeat split; try done; lia.
    + destruct Hr as [a ->]. simpl.
      rewrite filter_cons_False by (by rewrite Hbad).
      destruct (IH (S i)
                  (mkParser (alarms self ++ [a]) (alarm_patterns self)
                     (parser_log self ++ [])))
        as (Hlen & Hskips & Hpat).
      rewrite Hskips, Hpat. simpl in *.
      rewrite length_app in Hlen. simpl in Hlen.
      unfold logged_skips at 1. simpl. rewrite app_nil_r in *.
      unfold logged_skips. repeat split; try done; lia.
Qed.

End ParserFacts.

Section ParserClaims.

Variable strptime_ms : string -> option datetime.
Variable strptime_s : string -> option datetime.
Variable float_repr : float -> string.

Abbreviation parse_row' := (_parse_alarm_row strptime_ms strptime_s float_repr).
Abbreviation load' := (load_alarm_data strptime_ms strptime_s float_repr).
Abbreviation str' := (py_str float_repr).

Lemma parse_rows_alarms clock i rows self :
  alarms (parse_rows strptime_ms strptime_s float_repr clock i rows self)
  = alarms self
    ++ omap id
         (imap (fun k r =>
                  fst (parse_row' (fst (clock (i + k)%nat))
                         (snd (clock (i + k)%nat)) r)) rows).
Proof.
  revert i self. induction rows as [| r rows IH]; intros i self.
  - simpl. by rewrite app_nil_r.
  - rewrite parse_rows_cons, IH. simpl. rewrite Nat.add_0_r, <- app_assoc.
    f_equal.
    assert (Heq :
      imap (fun k r0 =>
              fst (parse_row' (fst (clock (S i + k)%nat))
                     (snd (clock (S i + k)%nat)) r0)) rows
      = imap ((fun k r0 =>
                 fst (parse_row' (fst (clock (i + k)%nat))
                        (snd (clock (i + k)%nat)) r0)) ∘ S) rows).
    { apply imap_ext. intros k r' _. simpl. by rewrite Nat.add_succ_r. }
    rewrite <- Heq. by destruct (fst (parse_row' _ _ r)).
Qed.

Lemma sample_rows_no_skip (l : list row) (g : nat -> nat) :
  filter (fun rec => is_skip rec = true)
    (imap (fun i r => (INFO, MsgSampleRow (g i) r)) l) = [].
Proof.
  revert g. induction l as [| r l IH]; intros g; [done |].
  rewrite imap_cons, filter_cons_False by done. apply (IH (g ∘ S)).
Qed.

Lemma alarm_rows_of_all (df : DataFrame) :
  (37 ≤ n_columns df)%nat ->
  Forall (fun r => qualifies r = ok true) (frame_rows df) ->
  alarm_rows_of df = ok (frame_rows df).
Proof.
  intros Hw Hq. unfold alarm_rows_of, has_column.
  rewrite !bool_decide_eq_true_2 by lia. simpl.
  by apply filter_alarm_rows_all.
Qed.

(** C9. On a frame with the columns of the export whose rows all qualify,
    the load succeeds whatever the rows hold, and the records are those of
    the rows that yield one, in row order: a row whose extraction raises
    contributes no record and does not stop the loop. When every row has
    its activation stamp and every row with a numeric code parses, the rows
    with a non-numeric code are exactly the rows skipped, each with one log
    line: 100 rows of which 5 have a non-numeric code give 95 records and 5
    logged skips. A code is non-numeric in particular when it is a string
    holding a character that is no digit, whitespace, sign or underscore. *)
Theorem malformed_rows_are_skipped (df : DataFrame)
    (clock : nat -> datetime * datetime) :
  (37 ≤ n_columns df)%nat ->
  Forall (fun r => qualifies r = ok true) (frame_rows df) ->
  let rows := frame_rows df in
  let res := load' (CsvFrame df) clock parser_init in
  let bad := filter (fun r => code_non_numeric r = true) rows in
  fst res = true
  /\ alarms (snd res)
     = omap id
         (imap (fun k r =>
                  fst (parse_row' (fst (clock k)) (snd (clock k)) r)) rows)
  /\ (Forall (fun r =>
                (exists c, iloc r 11 = ok c /\ str' c ≠ "nan" /\ str' c ≠ "")
                /\ (code_non_numeric r = false ->
                    forall now_c now_g,
                      is_Some (fst (parse_row' now_c now_g r)))) rows ->
      (length (alarms (snd res)) + length bad = length rows)%nat
      /\ logged_skips (snd res) = length bad
      /\ (length rows = 100%nat -> length bad = 5%nat ->
          length (alarms (snd res)) = 95%nat
          /\ logged_skips (snd res) = 5%nat))
  /\ (forall r s, iloc r 35 = ok (CStr s) -> non_numeric s ->
        code_non_numeric r = true).
Proof.
  intros Hw Hq rows res bad. subst res. unfold load_alarm_data.
  rewrite (alarm_rows_of_all df Hw Hq). fold rows. simpl.
  split; [done |]. split; [by rewrite parse_rows_alarms |].
  split;
    [| intros r s H35 Hs; unfold code_non_numeric; rewrite H35; simpl;
       by rewrite (to_int_non_numeric s Hs)].
  intros Hrows.
  set (self3 := mkParser _ _ _).
  assert (Hpre : Forall (fun r => forall now_c now_g,
            if code_non_numeric r
            then exists e, parse_alarm_row_body strptime_ms strptime_s
                             float_repr now_c now_g r = raise e
            else exists a, parse_alarm_row_body strptime_ms strptime_s
                             float_repr now_c now_g r = ok (Some a)) rows).
  { rewrite Forall_forall in Hq, Hrows |- *. intros r Hr now_c now_g.
    destruct (Hrows r Hr) as [(c & H11 & Hnan & Hempty) Hgood].
    destruct (code_non_numeric r) eqn:Hbad.
    - by eapply parse_body_bad_code; eauto.
    - destruct (Hgood eq_refl now_c now_g) as [a Ha].
      unfold _parse_alarm_row in Ha.
      destruct (parse_alarm_row_body _ _ _ _ _ r) as [e | res]; [done |].
      exists a. simpl in Ha. by rewrite Ha. }
  destruct (parse_rows_counts strptime_ms strptime_s float_repr clock 0%nat
              rows self3 Hpre) as (Hlen & Hskips & _).
  fold bad in Hlen, Hskips.
  assert (Hskips3 : logged_skips self3 = 0%nat).
  { unfold logged_skips, self3. simpl. unfold sample_rows.
    rewrite !filter_cons_False by done.
    by rewrite (sample_rows_no_skip (take 3 rows) (fun i => i)). }
  unfold logged_skips in *. simpl in *.
  rewrite filter_app, length_app. simpl.
  repeat split; try done; lia.
Qed.

(** For a qualifying row, when its activation-stamp cell is missing (a NaN
    or an empty string) [_parse_alarm_row] returns no record and logs
    nothing, and the row loop leaves the parser as it was. A record is
    produced only from an activation cell that is present, and its
    activation time is then what the millisecond format reads, else what
    the second format reads, and the clock reading only when both fail. Its
    clear time is absent exactly when the clear cell reads "nan"; any other
    clear cell, the empty string included, goes through the same two
    formats and the clock. *)
Lemma missing_activation_stamp_dropped (now_c now_g : datetime) (r : row)
    (c : cell) :
  qualifies r = ok true -> iloc r 11 = ok c ->
  ((notna c = false \/ c = CStr "") ->
     parse_row' now_c now_g r = (None, [])
     /\ forall clock i self,
          parse_rows strptime_ms strptime_s float_repr clock i [r] self = self)
  /\ (forall a, fst (parse_row' now_c now_g r) = Some a ->
        notna c = true /\ str' c ≠ "nan" /\ str' c ≠ ""
        /\ comes_timestamp a
           = match strptime_ms (str' c) with
             | Some t => t
             | None =>
                 match strptime_s (str' c) with
                 | Some t => t
                 | None => now_c
                 end
             end
        /\ exists c19,
             iloc r 19 = ok c19
             /\ goes_timestamp a
                = if bool_decide (str' c19 = "nan") then None
                  else Some (match strptime_ms (str' c19) with
                             | Some t => t
                             | None =>
                                 match strptime_s (str' c19) with
                                 | Some t => t
                                 | None => now_g
                                 end
                             end)).
Proof.
  intros Hq H11. split.
  - intros Hmiss.
    assert (Hstr : str' c = "nan" \/ str' c = "").
    { destruct Hmiss as [Hna | ->]; [left | by right].
      destruct c as [| | | f |]; try done. simpl in *.
      by destruct (PrimFloat.is_nan f). }
    assert (Hrow : forall n1 n2, parse_row' n1 n2 r = (None, [])).
    { intros n1 n2. unfold _parse_alarm_row.
      by rewrite (parse_body_missing_comes _ _ _ n1 n2 r c Hq H11 Hstr). }
    split; [apply Hrow |]. intros clock i [al pat lg].
    rewrite parse_rows_cons, Hrow. simpl. by rewrite !app_nil_r.
  - intros a Ha. unfold _parse_alarm_row, parse_alarm_row_body in Ha.
    rewrite H11 in Ha. simpl in Ha.
    destruct (iloc r 19) as [| c19]; [done |]. simpl in Ha.
    destruct (bool_decide (str' c = "nan")) eqn:Hnan; [done |].
    destruct (bool_decide (str' c = "")) eqn:Hempty; [done |].
    apply bool_decide_eq_false in Hnan, Hempty. simpl in Ha.
    destruct (iloc r 34) as [| c34]; [done |]. simpl in Ha.
    destruct (iloc r 35) as [| c35]; [done |]. simpl in Ha.
    destruct (py_int c35) as [| n]; [done |]. simpl in Ha.
    destruct (iloc r 10) as [| c10]; [done |]. simpl in Ha.
    destruct (iloc r 36) as [| c36]; [done |]. simpl in Ha.
    destruct (iloc r 37) as [| c37]; [done |]. simpl in Ha.
    unfold KronesAlarm_new, __post_init__ in Ha. simpl in Ha.
    assert (Hna : notna c = true).
    { destruct c as [| | | f |]; try done. simpl in *.
      by destruct (PrimFloat.is_nan f). }
    split; [done |]. split; [done |]. split; [done |].
    unfold _parse_timestamp in Ha.
    destruct (decide (str' c19 = "nan")) as [E19 | E19].
    + rewrite (bool_decide_eq_false_2 (str' c19 ≠ "nan")) in Ha by tauto.
      simpl in Ha. injection Ha as <-. simpl.
      split; [done |]. exists c19. split; [done |].
      by rewrite bool_decide_eq_true_2.
    + rewrite (bool_decide_eq_true_2 (str' c19 ≠ "nan")) in Ha by done.
      simpl in Ha. destruct (PyFloat.to_int _); simpl in Ha; [done |].
      injection Ha as <-. simpl. split; [done |].
      exists c19. split; [done |]. by rewrite bool_decide_eq_false_2.
Qed.

End ParserClaims.

Lemma sample_row_well_formed (i : Z) :
  let r := sample_row i in
  qualifies r = ok true
  /\ (exists c, iloc r 11 = ok c
                /\ py_str RefStrptime.float_repr c ≠ "nan"
                /\ py_str RefStrptime.float_repr c ≠ "")
  /\ (code_non_numeric r = false ->
      forall now_c now_g,
        is_Some (fst (_parse_alarm_row RefStrptime.strptime_ms
                        RefStrptime.strptime_s RefStrptime.float_repr
                        now_c now_g r))).
Proof.
  intros r. split; [by vm_compute |]. split.
  - exists (CStr "03/14/2024 10:15:30.250").
    split; [by vm_compute |]. split; discriminate.
  - intros _ now_c now_g. vm_compute. eauto.
Qed.

Lemma sample_row_bad_code_skipped :
  let r := sample_row_bad_code in
  qualifies r = ok true
  /\ (exists c, iloc r 11 = ok c
                /\ py_str RefStrptime.float_repr c ≠ "nan"
                /\ py_str RefStrptime.float_repr c ≠ "")
  /\ (code_non_numeric r = false ->
      forall now_c now_g,
        is_Some (fst (_parse_alarm_row RefStrptime.strptime_ms
                        RefStrptime.strptime_s RefStrptime.float_repr
                        now_c now_g r))).
Proof.
  intros r. split; [by vm_compute |]. split.
  - exists (CStr "03/14/2024 10:15:30.250").
    split; [by vm_compute |]. split; discriminate.
  - intros H. vm_compute in H. discriminate.
Qed.

Lemma malformed_rows_are_skipped_witness :
  length hundred_rows = 100%nat
  /\ length (filter (fun r => code_non_numeric r = true) hundred_rows) = 5%nat
  /\ length (alarms (snd (sample_load hundred_rows))) = 95%nat
  /\ logged_skips (snd (sample_load hundred_rows)) = 5%nat.
Proof.
  assert (H100 : length hundred_rows = 100%nat) by (vm_compute; reflexivity).
  assert (H5 : length (filter (fun r => code_non_numeric r = true)
                         hundred_rows) = 5%nat) by (vm_compute; reflexivity).
  assert (Hq : Forall (fun r => qualifies r = ok true) hundred_rows).
  { unfold hundred_rows. rewrite !Forall_app.
    repeat split; apply Forall_replicate;
      first [ exact (proj1 (sample_row_well_formed _))
            | exact (proj1 sample_row_bad_code_skipped) ]. }
  assert (Hw : (37 ≤ 38)%nat) by lia.
  destruct (malformed_rows_are_skipped RefStrptime.strptime_ms
              RefStrptime.strptime_s RefStrptime.float_repr
              (mkFrame 38 hundred_rows) sample_clock Hw Hq)
    as (_ & _ & H & _).
  cbn [frame_rows] in H. destruct H as (_ & _ & H).
  { unfold hundred_rows. rewrite !Forall_app.
    repeat split; apply Forall_replicate;
      first [ exact (proj2 (sample_row_well_formed _))
            | exact (proj2 sample_row_bad_code_skipped) ]. }
  split; [exact H100 |]. split; [exact H5 |]. exact (H H100 H5).
Defined.

Lemma missing_activation_stamp_dropped_witness :
  qualifies sample_row_no_comes = ok true
  /\ iloc sample_row_no_comes 11 = ok CNaN
  /\ sample_parse_row sample_row_no_comes = (None, []).
Proof.
  assert (Hq : qualifies sample_row_no_comes = ok true)
    by (vm_compute; reflexivity).
  assert (H11 : iloc sample_row_no_comes 11 = ok CNaN)
    by (vm_compute; reflexivity).
  split; [exact Hq |]. split; [exact H11 |].
  apply (proj1 (missing_activation_stamp_dropped RefStrptime.strptime_ms
                  RefStrptime.strptime_s RefStrptime.float_repr 0 0
                  sample_row_no_comes CNaN Hq H11)).
  left. reflexivity.
Defined.


(** ** Activation and clearing *)

Ltac split_rules :=
  unfold activation_writes, clear_writes;
  repeat first
    [ case_bool_decide
    | match goal with
      | |- context [msg_lower_has ?s ?a] =>
          let E := fresh "E" in destruct (msg_lower_has s a) eqn:E
      | |- context [msg_has ?s ?a] =>
          let E := fresh "E" in destruct (msg_has s a) eqn:E
      end ];
  simpl.

Ltac elems H :=
  repeat
    (apply elem_of_cons in H as [H | H];
     [try (injection H as -> ->); try subst |]);
  try (by apply elem_of_nil in H).

Lemma activation_tags_cleared deviation alarm :
  tags (activation_writes deviation alarm) ⊆ tags (clear_writes alarm).
Proof.
  unfold tags. split_rules; apply (bool_decide_unpack _); vm_compute; exact I.
Qed.

Lemma clear_writes_nominal alarm tag v :
  (tag, v) ∈ clear_writes alarm -> initial_tree !! tag = Some v.
Proof. split_rules; intros Hin; elems Hin; reflexivity. Qed.

Lemma clear_tags_NoDup alarm : NoDup (tags (clear_writes alarm)).
Proof.
  unfold tags. split_rules;
    apply (bool_decide_unpack _); vm_compute; exact I.
Qed.

Lemma mma_clear_tags deviation alarm :
  module alarm = "MMA" ->
  tags (clear_writes alarm) = tags (activation_writes deviation alarm).
Proof. intros Hm. unfold tags. split_rules; done. Qed.

Lemma apply_writes_notin ws t tag :
  tag ∉ tags ws -> apply_writes ws t !! tag = t !! tag.
Proof.
  revert t. induction ws as [| [k v] ws IH]; intros t Hnot; [done |].
  simpl in *. apply not_elem_of_cons in Hnot as [Hne Hnot].
  unfold apply_writes in *. simpl. rewrite IH by done.
  by rewrite lookup_insert_ne.
Qed.

Lemma apply_writes_in ws t tag v :
  NoDup (tags ws) -> (tag, v) ∈ ws -> apply_writes ws t !! tag = Some v.
Proof.
  revert t. induction ws as [| [k w] ws IH]; intros t Hnd Hin.
  - by apply elem_of_nil in Hin.
  - simpl in Hnd. apply NoDup_cons in Hnd as [Hk Hnd].
    apply elem_of_cons in Hin as [[= -> ->] | Hin].
    + change (apply_writes ws (<[k := w]> t) !! k = Some w).
      rewrite apply_writes_notin by done. apply lookup_insert_eq.
    + change (apply_writes ws (<[k := w]> t) !! tag = Some v). by apply IH.
Qed.

Lemma tree_set_tags reason ws st :
  tree (fold_left (set_tag reason) ws st) = apply_writes ws (tree st)
  /\ current_alarms (fold_left (set_tag reason) ws st) = current_alarms st.
Proof.
  revert st. induction ws as [| w ws IH]; intros st; [done |].
  simpl. destruct (IH (set_tag reason st w)) as [-> ->]. done.
Qed.

Lemma module_clear_tags (deviation : float) (alarm : KronesAlarm) :
  (module alarm = "BAS" ->
   tags (clear_writes alarm)
   = [bas_nodes.BCM_Server_Status; bas_nodes.Communication_Health])
  /\ (module alarm = "SDC" ->
      tags (clear_writes alarm)
      = [sdc_nodes.Power_Supply_Status; sdc_nodes.Servo_Drive_Status;
         sdc_nodes.Service_Brake_Torque])
  /\ (module alarm = "SBC" ->
      tags (clear_writes alarm)
      = [sbc_nodes.Position_Deviation; sbc_nodes.Stretching_Drive_12;
         sbc_nodes.Stretching_Drive_13; sbc_nodes.Stretching_Drive_14])
  /\ (module alarm ∉ ["MMA"; "BAS"; "SDC"; "SBC"] ->
      clear_writes alarm = [] /\ activation_writes deviation alarm = []).
Proof.
  unfold clear_writes, activation_writes.
  split; [by intros -> |]. split; [by intros -> |]. split; [by intros -> |].
  intros H.
  assert (Hne : module alarm ≠ "MMA" /\ module alarm ≠ "BAS"
                /\ module alarm ≠ "SDC" /\ module alarm ≠ "SBC").
  { repeat split; intros E; apply H; rewrite E, !elem_of_cons; tauto. }
  destruct Hne as (H1 & H2 & H3 & H4).
  by rewrite !bool_decide_eq_false_2.
Qed.

Lemma activation_writes_short (deviation : float) (alarm : KronesAlarm) :
  (length (activation_writes deviation alarm) ≤ 2)%nat.
Proof. split_rules; lia. Qed.

(** C3 (as amended). Clearing a record writes nominal values to tags chosen
    by the record's module: every tag that activating the record wrote is
    among them and is therefore back at its nominal value after the clear,
    and no tag outside them is touched. For module MMA they are exactly the
    tags of the activation (same rule, first match); for BAS, SDC and SBC
    they are the two, three and four symptom tags of the module, whatever
    the message matched, of which the activation wrote two at most; for any
    other module neither the activation nor the clear writes a tag. After
    the clear all of these tags hold their nominal values and one
    occurrence of the record has left the active list. *)
Theorem clearing_restores_nominal (deviation : float) (alarm : KronesAlarm) :
  tags (activation_writes deviation alarm) ⊆ tags (clear_writes alarm)
  /\ (forall tag v, (tag, v) ∈ clear_writes alarm ->
         initial_tree !! tag = Some v)
  /\ (module alarm = "MMA" ->
      tags (clear_writes alarm) = tags (activation_writes deviation alarm))
  /\ (forall r st, choice r (current_alarms st) = Some alarm ->
         let st' := _clear_random_alarm r st in
         (forall tag, tag ∈ tags (activation_writes deviation alarm) ->
            tree st' !! tag = initial_tree !! tag)
         /\ (forall tag, tag ∉ tags (clear_writes alarm) ->
              tree st' !! tag = tree st !! tag))
  /\ (module alarm = "BAS" ->
      tags (clear_writes alarm)
      = [bas_nodes.BCM_Server_Status; bas_nodes.Communication_Health])
  /\ (module alarm = "SDC" ->
      tags (clear_writes alarm)
      = [sdc_nodes.Power_Supply_Status; sdc_nodes.Servo_Drive_Status;
         sdc_nodes.Service_Brake_Torque])
  /\ (module alarm = "SBC" ->
      tags (clear_writes alarm)
      = [sbc_nodes.Position_Deviation; sbc_nodes.Stretching_Drive_12;
         sbc_nodes.Stretching_Drive_13; sbc_nodes.Stretching_Drive_14])
  /\ (module alarm ∉ ["MMA"; "BAS"; "SDC"; "SBC"] ->
      clear_writes alarm = [] /\ activation_writes deviation alarm = [])
  /\ (length (activation_writes deviation alarm) ≤ 2)%nat
  /\ (forall r st, choice r (current_alarms st) = Some alarm ->
         let st' := _clear_random_alarm r st in
         (forall tag, tag ∈ tags (clear_writes alarm) ->
            tree st' !! tag = initial_tree !! tag)
         /\ current_alarms st' = list_remove alarm (current_alarms st)).
Proof.
  split; [apply activation_tags_cleared |].
  split; [apply clear_writes_nominal |].
  split; [apply mma_clear_tags |].
  assert (Hclear : forall r st, choice r (current_alarms st) = Some alarm ->
    tree (_clear_random_alarm r st) = apply_writes (clear_writes alarm) (tree st)
    /\ current_alarms (_clear_random_alarm r st)
       = list_remove alarm (current_alarms st)).
  { intros r st Hr. unfold _clear_random_alarm. rewrite Hr. simpl.
    by destruct (tree_set_tags "Alarm Cleared" (clear_writes alarm)
                   (set_current_alarms
                      (list_remove alarm (current_alarms st)) st))
      as [-> ->]. }
  assert (Hnominal : forall t tag, tag ∈ tags (clear_writes alarm) ->
    apply_writes (clear_writes alarm) t !! tag = initial_tree !! tag).
  { intros t tag Hin. unfold tags in Hin.
    apply list_elem_of_fmap in Hin as ([k v] & -> & Hin).
    simpl. rewrite (clear_writes_nominal _ _ _ Hin).
    by apply apply_writes_in; [apply clear_tags_NoDup |]. }
  split.
  { intros r st Hr st'. subst st'. rewrite (proj1 (Hclear r st Hr)). split.
    - intros tag Hact. apply Hnominal.
      by apply (activation_tags_cleared deviation alarm).
    - intros tag Hnot. by apply apply_writes_notin. }
  destruct (module_clear_tags deviation alarm) as (Hbas & Hsdc & Hsbc & Hother).
  split; [done |]. split; [done |]. split; [done |]. split; [done |].
  split; [apply activation_writes_short |].
  intros r st Hr st'. subst st'. destruct (Hclear r st Hr) as [-> ->].
  split; [| done]. intros tag Hin. by apply Hnominal.
Qed.

Lemma clearing_restores_nominal_witness :
  let st := _activate_alarm sdc_power_alarm 7.5 (server_start three_alarms) in
  tree st !! sdc_nodes.Power_Supply_Status = Some (VStr "FAULT")
  /\ tree (_clear_random_alarm 0 st) !! sdc_nodes.Power_Supply_Status
     = Some (VStr "OK").
Proof.
  intros st. split; [by vm_compute |].
  assert (Hr : choice 0 (current_alarms st) = Some sdc_power_alarm)
    by (vm_compute; reflexivity).
  assert (Hin : sdc_nodes.Power_Supply_Status
                ∈ tags (activation_writes 7.5 sdc_power_alarm)).
  { apply (bool_decide_unpack _). vm_compute. exact I. }
  rewrite (proj1 (proj1 (proj2 (proj2 (proj2
             (clearing_restores_nominal 7.5 sdc_power_alarm)))) 0%nat st Hr)
             _ Hin).
  reflexivity.
Defined.

(** The claim of C3 as stated fails: clearing the SDC alarm
    "Power supply fault" also writes the servo-drive tag, which activating
    it did not touch. *)
Lemma clear_is_not_inverse :
  ~ clear_inverts_activation 7.5 sdc_power_alarm.
Proof.
  intros [H _]. specialize (H sdc_nodes.Servo_Drive_Status).
  destruct H as [H _].
  assert (Hin : sdc_nodes.Servo_Drive_Status ∈ tags (clear_writes sdc_power_alarm)).
  { apply (bool_decide_unpack _). vm_compute. exact I. }
  apply H in Hin. apply (bool_decide_pack _) in Hin.
  vm_compute in Hin. exact Hin.
Qed.

(** ** The list of active alarms *)

Lemma list_remove_length `{EqDecision A} (x : A) (l : list A) :
  x ∈ l -> S (length (list_remove x l)) = length l.
Proof.
  induction l as [| y l IH]; intros Hin; [by apply elem_of_nil in Hin |].
  simpl. destruct (decide (y = x)) as [-> | Hne]; [done |].
  apply elem_of_cons in Hin as [-> | Hin]; [done |].
  simpl. by rewrite IH.
Qed.

Lemma choice_elem_of {A} (r : nat) (l : list A) (x : A) :
  choice r l = Some x -> x ∈ l.
Proof. unfold choice. apply list_elem_of_lookup_2. Qed.

Lemma activate_current alarm deviation st :
  current_alarms (_activate_alarm alarm deviation st)
  = current_alarms st ++ [alarm].
Proof.
  unfold _activate_alarm. simpl. by rewrite (proj2 (tree_set_tags _ _ _)).
Qed.

Lemma clear_current r alarm st :
  choice r (current_alarms st) = Some alarm ->
  current_alarms (_clear_random_alarm r st)
  = list_remove alarm (current_alarms st).
Proof.
  intros Hr. unfold _clear_random_alarm. rewrite Hr. simpl.
  by rewrite (proj2 (tree_set_tags _ _ _)).
Qed.

Lemma production_tick_current st :
  current_alarms (_simulate_production_tick st) = current_alarms st.
Proof.
  unfold _simulate_production_tick.
  destruct (production_rate_of _); [done |]. simpl.
  destruct (PyFloat.to_int _); [done |]. simpl.
  repeat match goal with |- context [if ?b then _ else _] => destruct b end;
    done.
Qed.

Lemma engine_step_effect st l st' :
  engine_step st l st' ->
  current_alarms st' = label_effect l (current_alarms st)
  /\ match l with
     | StepClear alarm =>
         alarm ∈ current_alarms st
         /\ S (length (current_alarms st')) = length (current_alarms st)
     | _ => True
     end.
Proof.
  destruct 1 as [alarm dev st | r alarm st Hr | st | st | rd ut up st | a st].
  - by rewrite activate_current.
  - rewrite (clear_current _ _ _ Hr).
    pose proof (choice_elem_of _ _ _ Hr) as Hin.
    by rewrite list_remove_length.
  - done.
  - by rewrite production_tick_current.
  - done.
  - by destruct a.
Qed.

Lemma engine_steps_app st l1 st1 l2 st2 :
  engine_steps st l1 st1 -> engine_steps st1 l2 st2 ->
  engine_steps st (l1 ++ l2) st2.
Proof.
  induction 1 as [| st l st' ls st'' Hstep _ IH]; intros H2; [done |].
  simpl. econstructor; [done |]. by apply IH.
Qed.

Lemma engine_steps_one st l st' :
  engine_step st l st' -> engine_steps st [l] st'.
Proof. intros H. econstructor; [done | constructor]. Qed.

Lemma step_log m st : engine_step st StepOther (log m st).
Proof. apply (step_action (ALog m)). Qed.

Lemma step_sleep seconds st : engine_step st StepOther (sleep seconds st).
Proof. apply (step_action (ASleep seconds)). Qed.

Lemma run_actions_steps (script : list action) st :
  exists labels, engine_steps st labels (fold_left run_action script st).
Proof.
  revert st. induction script as [| a script IH]; intros st; simpl.
  - exists []. constructor.
  - destruct (IH (run_action st a)) as [labels Hl].
    exists (StepOther :: labels). econstructor; [constructor | done].
Qed.

Lemma trigger_alarm_sequence_steps rnd st :
  exists labels, engine_steps st labels (_trigger_alarm_sequence rnd st).
Proof.
  unfold _trigger_alarm_sequence.
  destruct (choice _ _) as [sequence |]; [| exists []; constructor].
  assert (Hfold : forall (l : list (nat * KronesAlarm)) st0,
    exists labels, engine_steps st0 labels
      (fold_left
         (fun st (ia : nat * KronesAlarm) =>
            let st' := _activate_alarm (snd ia) (r_dev rnd (fst ia)) st in
            if bool_decide (fst ia < length sequence - 1)%nat
            then sleep 0.01 st' else st') l st0)).
  { induction l as [| ia l IH]; intros st0; simpl.
    - exists []. constructor.
    - case_bool_decide.
      + destruct (IH (sleep 0.01 (_activate_alarm (snd ia)
                                    (r_dev rnd (fst ia)) st0)))
          as [labels Hl].
        exists (StepActivate (snd ia) :: StepOther :: labels).
        econstructor; [constructor |].
        econstructor; [apply step_sleep | done].
      + destruct (IH (_activate_alarm (snd ia) (r_dev rnd (fst ia)) st0))
          as [labels Hl].
        exists (StepActivate (snd ia) :: labels).
        econstructor; [constructor | done]. }
  destruct (Hfold (imap pair (take 5 sequence))
              (log (LogTriggeringSequence (length sequence)) st))
    as [labels Hl].
  exists (StepOther :: labels).
  econstructor; [apply step_log | done].
Qed.

Lemma alarm_iteration_steps now rnd ls st :
  exists labels,
    engine_steps st labels (snd (alarm_iteration now rnd (ls, st))).
Proof.
  unfold alarm_iteration.
  set (s1 := if PrimFloat.ltb _ _ then _ else _).
  assert (H1 : exists labels, engine_steps st labels (snd s1)).
  { subst s1. destruct (PrimFloat.ltb _ _); [| exists []; constructor].
    destruct (negb (scenario_toggle ls)); simpl.
    - destruct (run_actions_steps scenario_a_script
                  (log (LogScenarioTrigger ScenarioA) st)) as [labels Hl].
      exists (StepOther :: labels).
      econstructor; [apply step_log | done].
    - destruct (run_actions_steps scenario_b_script
                  (log (LogScenarioTrigger ScenarioB) st)) as [labels Hl].
      exists (StepOther :: labels).
      econstructor; [apply step_log | done]. }
  destruct s1 as [ls1 st1]. simpl in *.
  destruct H1 as [l1 H1].
  destruct (trigger_alarm_sequence_steps rnd st1) as [l2 H2].
  set (st2 := _trigger_alarm_sequence rnd st1) in *.
  assert (H3 : exists labels, engine_steps st2 labels
            (if bool_decide (current_alarms st2 ≠ [])
             then _clear_random_alarm (r_clear rnd) st2 else st2)).
  { case_bool_decide; [| exists []; constructor].
    destruct (choice (r_clear rnd) (current_alarms st2)) as [a |] eqn:Hc.
    - exists [StepClear a]. by apply engine_steps_one, step_clear.
    - exists []. unfold _clear_random_alarm. rewrite Hc. constructor. }
  destruct H3 as [l3 H3].
  set (st3 := if bool_decide _ then _ else _) in *.
  assert (H4 : exists labels,
            engine_steps st3 labels (_trigger_random_alarm rnd st3)).
  { unfold _trigger_random_alarm.
    destruct (alarm_parser st3) as [p |]; [| exists []; constructor].
    destruct (choice _ _) as [a |]; [| exists []; constructor].
    exists [StepActivate a; StepOther].
    econstructor; [constructor |].
    apply engine_steps_one, step_log. }
  destruct H4 as [l4 H4].
  exists (l1 ++ l2 ++ l3 ++ l4 ++ [StepOther; StepOther]).
  repeat (eapply engine_steps_app; [done |]).
  econstructor; [apply step_counters |].
  apply engine_steps_one, step_sleep.
Qed.

(** C4 (as amended). [current_alarms] is a list in which a record may occur
    several times. Every step of the engine acts on it as its label says: an
    activation appends one occurrence of the activated record, a clearing
    removes one occurrence of the drawn record (which was a member), and
    every other step (counters, production, metrics, scenario statements,
    sleeps, log lines) leaves it unchanged; an iteration of the replay loop
    is a sequence of such steps. Nothing is removed on account of a
    record's duration. *)
Theorem active_alarms_change_by_steps :
  (forall st l st', engine_step st l st' ->
     current_alarms st' = label_effect l (current_alarms st)
     /\ match l with
        | StepClear alarm =>
            alarm ∈ current_alarms st
            /\ S (length (current_alarms st')) = length (current_alarms st)
        | _ => True
        end)
  /\ (forall now rnd ls st,
        exists labels,
          engine_steps st labels (snd (alarm_iteration now rnd (ls, st))))
  /\ (forall st, engine_step st StepOther (_simulate_production_tick st))
  /\ (forall round1 u_temp u_pressure st,
        engine_step st StepOther
          (_update_process_variables_tick round1 u_temp u_pressure st)).
Proof.
  split; [apply engine_step_effect |].
  split; [apply alarm_iteration_steps |].
  split; constructor.
Qed.

Lemma active_alarms_change_by_steps_witness :
  let st := _activate_alarm sdc_power_alarm 7.5 (server_start three_alarms) in
  current_alarms (_activate_alarm sdc_power_alarm 7.5 st)
  = [sdc_power_alarm; sdc_power_alarm]
  /\ current_alarms (_clear_random_alarm 1 (_activate_alarm sdc_power_alarm 7.5 st))
     = [sdc_power_alarm].
Proof.
  intros st. split.
  - exact (proj1 (proj1 active_alarms_change_by_steps _ _ _
                    (step_activate sdc_power_alarm 7.5 st))).
  - refine (proj1 (proj1 active_alarms_change_by_steps _ _ _
                     (step_clear 1 sdc_power_alarm
                        (_activate_alarm sdc_power_alarm 7.5 st) _))).
    reflexivity.
Defined.

(** The claim of C4 as stated fails: after one iteration of the replay loop
    on three records forming one cascading sequence, a record is active
    twice. *)
Lemma active_alarms_not_a_set :
  exists s, reachable three_alarms s /\ ~ NoDup (current_alarms (snd s)).
Proof.
  exists (alarm_iteration 0 sample_rand (loop_init 0, server_start three_alarms)).
  split; [apply reach_alarms, reach_start |].
  intros H. apply (bool_decide_pack _) in H. vm_compute in H. exact H.
Qed.

(** ** Production *)

Lemma float_ltb_leb (a b : float) :
  PrimFloat.ltb a b = true -> PrimFloat.leb a b = true.
Proof.
  rewrite FloatAxioms.ltb_spec, FloatAxioms.leb_spec.
  unfold SFltb, SFleb. by destruct (SFcompare _ _) as [[] |].
Qed.

Lemma pymax_ge (a b : float) :
  PrimFloat.leb a a = true -> PrimFloat.leb a (PyFloat.max a b) = true.
Proof.
  intros Ha. unfold PyFloat.max.
  destruct (PrimFloat.ltb a b) eqn:E; [by apply float_ltb_leb | done].
Qed.

Lemma production_tick_rate st r :
  production_rate_of (length (current_alarms st)) = ok r ->
  production_rate (_simulate_production_tick st) = r.
Proof.
  intros Hr. unfold _simulate_production_tick. rewrite Hr. simpl.
  destruct (PyFloat.to_int _); [done |]. simpl.
  repeat match goal with |- context [if ?b then _ else _] => destruct b end;
    done.
Qed.

(** The efficiency part of the production tick. For every number [n] of
    active alarms the efficiency is [max(0.2, 1.0 - n * 0.1)] and is at
    least 0.2; with 20 active alarms it is exactly 0.2. The rate the tick
    stores is [int] of the float product, which for 0 to 8 active alarms is
    18000, 16200, 14400, 12600, 10800, 9000, 7199, 5399 and 3600. *)
Lemma production_efficiency_floor (n : nat) :
  efficiency_factor n
  = PyFloat.max 0.2 (1.0 - PyFloat.of_int (Z.of_nat n) * 0.1)
  /\ PrimFloat.leb 0.2 (efficiency_factor n) = true
  /\ efficiency_factor 20 = 0.2%float
  /\ production_rate_of n
     = PyFloat.to_int (PyFloat.of_int 18000 * efficiency_factor n)
  /\ (forall st r, length (current_alarms st) = n ->
        production_rate_of n = ok r ->
        production_rate (_simulate_production_tick st) = r)
  /\ map production_rate_of (seq 0 9)
     = map ok [18000; 16200; 14400; 12600; 10800; 9000; 7199; 5399; 3600].
Proof.
  assert (Heff : efficiency_factor n
    = PyFloat.max 0.2 (1.0 - PyFloat.of_int (Z.of_nat n) * 0.1)).
  { destruct n as [| n]; [by vm_compute |].
    unfold efficiency_factor. by rewrite bool_decide_eq_true_2 by lia. }
  split; [done |]. split; [| split; [by vm_compute |]].
  - rewrite Heff. by apply pymax_ge.
  - split; [done |]. split; [| by vm_compute].
    intros st r <-. apply production_tick_rate.
Qed.

Lemma production_efficiency_floor_witness :
  let st := _activate_alarm sdc_power_alarm 7.5 (server_start three_alarms) in
  production_rate (_simulate_production_tick st) = 16200.
Proof.
  intros st.
  apply (proj1 (proj2 (proj2 (proj2 (proj2
           (production_efficiency_floor 1))))) st 16200);
    by vm_compute.
Defined.

(** With 6 active alarms the stored rate is not the product
    [18000 * efficiency]: the product is 7199.999999999998 and the rate is
    7199. *)
Lemma production_rate_is_truncated : ~ rate_is_product 6.
Proof.
  intros (r & Hr & Heq). vm_compute in Hr. injection Hr as <-.
  vm_compute in Heq. discriminate.
Qed.

(** C8. With six alarms active the efficiency is [1.0 - 6 * 0.1], which in
    binary64 is just below 0.4 (and above the floor 0.2), the product
    [18000 * efficiency] is just below 7200 and [int] truncates it: the
    tick stores and publishes a production rate of 7199, where
    [18000 * efficiency] is 7200. With seven alarms active it is 5399
    instead of 5400. *)
Theorem production_rate_one_short :
  let st := fold_left (fun st alarm => _activate_alarm alarm 7.5 st)
              (replicate 6 sdc_power_alarm) (server_start three_alarms) in
  length (current_alarms st) = 6%nat
  /\ 18000 * (10 - 6) / 10 = 7200
  /\ 18000 * (10 - 6) mod 10 = 0
  /\ efficiency_factor 6 = (1.0 - 6.0 * 0.1)%float
  /\ PrimFloat.ltb (efficiency_factor 6) 0.4 = true
  /\ PrimFloat.ltb 0.2 (efficiency_factor 6) = true
  /\ PrimFloat.ltb (18000.0 * efficiency_factor 6) 7200.0 = true
  /\ production_rate_of 6 = ok 7199
  /\ production_rate (_simulate_production_tick st) = 7199
  /\ tree (_simulate_production_tick st) !! mma_nodes.Speed_CPH
     = Some (VInt 7199)
  /\ production_rate_of 7 = ok 5399.
Proof. repeat split; vm_compute; reflexivity. Qed.

(** ** Scenarios *)

Lemma monitor_app ph l1 l2 :
  monitor ph (l1 ++ l2) = monitor ph l1 ≫= fun ph' => monitor ph' l2.
Proof.
  revert ph. induction l1 as [| a l1 IH]; intros ph; simpl; [done |].
  by destruct (monitor_step ph a).
Qed.

Lemma monitor_prefix ph l1 l2 :
  l1 `prefix_of` l2 -> is_Some (monitor ph l2) -> is_Some (monitor ph l1).
Proof.
  intros [k ->]. rewrite monitor_app.
  destruct (monitor ph l1); [eauto | by intros [? ?]].
Qed.

Lemma monitor_quiet next l :
  Forall (fun a => scenario_action a = false) l ->
  monitor (Idle next) l = Some (Idle next).
Proof.
  induction 1 as [| a l Ha _ IH]; [done |].
  assert (Hstep : monitor_step (Idle next) a = Some (Idle next)).
  { destruct a as [tag v | secs | m]; simpl in *; [by rewrite Ha | done |].
    destruct m; simpl in *; done. }
  change (monitor (Idle next) (a :: l))
    with (match monitor_step (Idle next) a with
          | Some ph' => monitor ph' l
          | None => None
          end).
  by rewrite Hstep.
Qed.

Lemma monitor_script s :
  monitor (Idle s) (ALog (LogScenarioTrigger s) :: scenario_script s)
  = Some (Idle (other_scenario s)).
Proof. destruct s; vm_compute; reflexivity. Qed.

Lemma run_actions_trace script st :
  trace (fold_left run_action script st) = trace st ++ script.
Proof.
  revert st. induction script as [| a script IH]; intros st; simpl.
  - by rewrite app_nil_r.
  - rewrite IH, (cons_middle a (trace st) script), app_assoc.
    f_equal. by destruct a.
Qed.

Lemma quiet_refl st : quiet_run st st.
Proof. exists []. by rewrite app_nil_r. Qed.

Lemma quiet_trans st1 st2 st3 :
  quiet_run st1 st2 -> quiet_run st2 st3 -> quiet_run st1 st3.
Proof.
  intros (l1 & H1 & Hq1) (l2 & H2 & Hq2). exists (l1 ++ l2).
  split; [by rewrite H2, H1, app_assoc | by apply Forall_app].
Qed.

Lemma quiet_emit a st : scenario_action a = false -> quiet_run st (emit a st).
Proof. intros Ha. exists [a]. split; [done | by constructor]. Qed.

Lemma quiet_write tag v st :
  tag ∉ scenario_tags -> quiet_run st (write_value tag v st).
Proof.
  intros Htag. exists [AWrite tag v]. split; [done |].
  constructor; [| done]. simpl. by apply bool_decide_eq_false_2.
Qed.

Lemma quiet_set_tags reason ws st :
  (forall tag, tag ∈ tags ws -> tag ∉ scenario_tags) ->
  quiet_run st (fold_left (set_tag reason) ws st).
Proof.
  revert st. induction ws as [| w ws IH]; intros st Hws; [apply quiet_refl |].
  simpl. eapply quiet_trans; [| apply IH].
  - unfold set_tag. eapply quiet_trans; [apply quiet_write | by apply quiet_emit].
    apply Hws. left.
  - intros tag Htag. apply Hws. by right.
Qed.

Lemma clear_tags_quiet alarm tag :
  tag ∈ tags (clear_writes alarm) -> tag ∉ scenario_tags.
Proof.
  unfold tags. split_rules; intros Hin; elems Hin;
    intros Hs; apply (bool_decide_pack _) in Hs; vm_compute in Hs; done.
Qed.

Lemma quiet_activate alarm deviation st :
  quiet_run st (_activate_alarm alarm deviation st).
Proof.
  unfold _activate_alarm.
  eapply quiet_trans; [| by apply quiet_emit].
  eapply quiet_trans; [| apply quiet_set_tags].
  - exists []. by rewrite app_nil_r.
  - intros tag Htag. eapply clear_tags_quiet.
    by apply (activation_tags_cleared deviation alarm).
Qed.

Lemma quiet_clear r st : quiet_run st (_clear_random_alarm r st).
Proof.
  unfold _clear_random_alarm.
  destruct (choice _ _) as [alarm |]; [| apply quiet_refl].
  eapply quiet_trans; [| by apply quiet_emit].
  eapply quiet_trans; [| apply quiet_set_tags, clear_tags_quiet].
  exists []. by rewrite app_nil_r.
Qed.

Lemma quiet_trigger_sequence rnd st :
  quiet_run st (_trigger_alarm_sequence rnd st).
Proof.
  unfold _trigger_alarm_sequence.
  destruct (choice _ _) as [sequence |]; [| apply quiet_refl].
  apply (quiet_trans _ (log (LogTriggeringSequence (length sequence)) st));
    [by apply quiet_emit |].
  generalize (log (LogTriggeringSequence (length sequence)) st).
  induction (imap pair (take 5 sequence)) as [| ia l IH]; intros st0;
    [apply quiet_refl |].
  simpl. eapply quiet_trans; [| apply IH].
  case_bool_decide; [| apply quiet_activate].
  eapply quiet_trans; [apply quiet_activate | by apply quiet_emit].
Qed.

Lemma quiet_trigger_random rnd st :
  quiet_run st (_trigger_random_alarm rnd st).
Proof.
  unfold _trigger_random_alarm.
  destruct (alarm_parser st); [| apply quiet_refl].
  destruct (choice _ _); [| apply quiet_refl].
  eapply quiet_trans; [apply quiet_activate | by apply quiet_emit].
Qed.

Lemma quiet_counters st : quiet_run st (_update_alarm_counters st).
Proof.
  unfold _update_alarm_counters.
  repeat (eapply quiet_trans; [| apply quiet_write]); [apply quiet_refl | ..];
    intros Hs; apply (bool_decide_pack _) in Hs; vm_compute in Hs; done.
Qed.

(** One iteration of the replay loop, seen by the observer: from [Idle]
    with the scenario whose turn it is, back to [Idle] with the scenario
    the loop will trigger next. *)
Lemma alarm_iteration_monitor now rnd ls st :
  exists l,
    trace (snd (alarm_iteration now rnd (ls, st))) = trace st ++ l
    /\ monitor (Idle (next_scenario ls)) l
       = Some (Idle (next_scenario (fst (alarm_iteration now rnd (ls, st))))).
Proof.
  unfold alarm_iteration.
  set (s1 := if PrimFloat.ltb _ _ then _ else _).
  assert (H1 : exists block,
    trace (snd s1) = trace st ++ block
    /\ monitor (Idle (next_scenario ls)) block
       = Some (Idle (next_scenario (fst s1)))).
  { subst s1. destruct (PrimFloat.ltb _ _).
    - destruct ls as [last [|]];
        unfold next_scenario; cbn [scenario_toggle negb fst snd].
      + exists (ALog (LogScenarioTrigger ScenarioB) :: scenario_b_script).
        split; [| apply (monitor_script ScenarioB)].
        unfold _trigger_scenario_b. rewrite run_actions_trace.
        change (trace (log (LogScenarioTrigger ScenarioB) st))
          with (trace st ++ [ALog (LogScenarioTrigger ScenarioB)]).
        by rewrite <- app_assoc.
      + exists (ALog (LogScenarioTrigger ScenarioA) :: scenario_a_script).
        split; [| apply (monitor_script ScenarioA)].
        unfold _trigger_scenario_a. rewrite run_actions_trace.
        change (trace (log (LogScenarioTrigger ScenarioA) st))
          with (trace st ++ [ALog (LogScenarioTrigger ScenarioA)]).
        by rewrite <- app_assoc.
    - exists []. simpl. by rewrite app_nil_r. }
  destruct s1 as [ls1 st1]. cbn [fst snd] in *.
  destruct H1 as (block & Hblock & Hmon).
  match goal with
  | |- exists l, trace ?x = _ /\ _ => assert (Hq : quiet_run st1 x)
  end.
  { eapply quiet_trans; [| by apply quiet_emit].
    eapply quiet_trans; [| apply quiet_counters].
    eapply quiet_trans; [| apply quiet_trigger_random].
    eapply quiet_trans; [apply quiet_trigger_sequence |].
    case_bool_decide; [apply quiet_clear | apply quiet_refl]. }
  destruct Hq as (lq & Hlq & Hquiet).
  exists (block ++ lq). split.
  - by rewrite Hlq, Hblock, app_assoc.
  - rewrite monitor_app, Hmon. simpl. by apply monitor_quiet.
Qed.

Lemma simulate_real_alarms_monitor inputs ls st :
  let res := fold_left (fun s inp => alarm_iteration (fst inp) (snd inp) s)
               inputs (ls, st) in
  exists l,
    trace (snd res) = trace st ++ l
    /\ monitor (Idle (next_scenario ls)) l
       = Some (Idle (next_scenario (fst res))).
Proof.
  revert ls st. induction inputs as [| [now rnd] inputs IH]; intros ls st.
  - exists []. simpl. by rewrite app_nil_r.
  - cbn [fold_left fst snd].
    destruct (alarm_iteration_monitor now rnd ls st) as (l1 & Ht1 & Hm1).
    destruct (alarm_iteration now rnd (ls, st)) as [ls1 st1] eqn:E.
    destruct (IH ls1 st1) as (l2 & Ht2 & Hm2). cbn [fst snd] in *.
    exists (l1 ++ l2). split.
    + by rewrite Ht2, Ht1, app_assoc.
    + rewrite monitor_app, Hm1. simpl. exact Hm2.
Qed.

(** C5. In every run of the engine, at every moment: once the replay task
    has logged the trigger of a scenario it executes that scenario's script
    statement by statement (line state STOPPED, the tag assertions with
    their 5 ms pauses, the 10 s dwell, the resets, line state RUNNING) and
    the other scenario's trigger comes only after the last statement; the
    scenarios alternate, A first. The observer accepts every system trace
    whose replay-task part is a prefix of the replay loop's trace, and at
    the end of an iteration no scenario is left running. *)
Theorem one_scenario_at_a_time (p : KronesAlarmDataParser) (t0 : float)
    (inputs : list (float * tick_rand)) (sys : list event) :
  let res := _simulate_real_alarms inputs t0 (server_start p) in
  project sys `prefix_of` trace (snd res) ->
  is_Some (monitor (Idle ScenarioA) (project sys))
  /\ monitor (Idle ScenarioA) (trace (snd res))
     = Some (Idle (next_scenario (fst res))).
Proof.
  intros res Hprefix. subst res. unfold _simulate_real_alarms in *.
  destruct (simulate_real_alarms_monitor inputs (loop_init t0)
              (server_start p)) as (l & Htrace & Hmon).
  change (next_scenario (loop_init t0)) with ScenarioA in Hmon.
  change (trace (server_start p) ++ l) with l in Htrace.
  rewrite Htrace in *. split; [| exact Hmon].
  apply (monitor_prefix _ _ l Hprefix). rewrite Hmon. eauto.
Qed.

Lemma one_scenario_at_a_time_witness :
  project sample_system_trace `prefix_of` sample_run
  /\ is_Some (monitor (Idle ScenarioA) (project sample_system_trace))
  /\ monitor (Idle ScenarioA) (project sample_system_trace)
     = Some (Mid ScenarioA 16).
Proof.
  unfold sample_run.
  assert (Hp : project sample_system_trace
               `prefix_of`
               trace (snd (_simulate_real_alarms sample_inputs 0
                             (server_start three_alarms)))).
  { exists (drop 40 sample_run). vm_compute. reflexivity. }
  split; [exact Hp |].
  split; [| vm_compute; reflexivity].
  exact (proj1 (one_scenario_at_a_time three_alarms 0 sample_inputs
                  sample_system_trace Hp)).
Defined.

(** * Further properties of the parser and of the simulation *)

(** ** The runs behind the cascading sequences *)

Lemma Sorted_snoc_inv {A} (R : A -> A -> Prop) (l : list A) (a : A) :
  Sorted R (l ++ [a]) ->
  Sorted R l /\ forall p, last l = Some p -> R p a.
Proof.
  induction l as [| x l IH]; simpl; intros Hs; [by split; [constructor |] |].
  apply Sorted_inv in Hs as [Hs Hhd].
  destruct (IH Hs) as [Hl Hlast]. split.
  - constructor; [done |]. destruct l; [constructor |].
    simpl in Hhd. apply HdRel_inv in Hhd. by constructor.
  - intros p Hp. destruct l as [| y l]; simpl in *.
    + injection Hp as <-. by apply HdRel_inv in Hhd.
    + by apply Hlast.
Qed.

Lemma chain_snoc l a :
  chain l -> (forall p, last l = Some p -> gap_ok p a) -> chain (l ++ [a]).
Proof.
  induction l as [| x l IH]; [done |].
  destruct l as [| y l]; simpl in *.
  - intros _ H. split; [by apply H | done].
  - intros [Hxy Hc] H. split; [done |]. by apply IH.
Qed.

Lemma separated_last_change runs cur cur' :
  head cur' = head cur ->
  separated (runs ++ [cur]) -> separated (runs ++ [cur']).
Proof.
  intros Hhd. induction runs as [| r runs IH]; [done |].
  destruct runs as [| r2 runs]; simpl in *.
  - intros [Hgap _]. split; [| done]. intros a b Ha Hb.
    apply Hgap; [done |]. by rewrite <- Hhd.
  - intros [Hgap Hs]. split; [done |]. by apply IH.
Qed.

Lemma separated_snoc runs cur new :
  separated (runs ++ [cur]) -> gap_apart cur new ->
  separated ((runs ++ [cur]) ++ [new]).
Proof.
  intros Hs Hgap. induction runs as [| r runs IH]; [by simpl |].
  destruct runs as [| r2 runs]; simpl in *.
  - destruct Hs as [H1 _]. by repeat split.
  - destruct Hs as [H1 Hs]. split; [done |]. by apply IH.
Qed.

Lemma flush_filter runs cur :
  flush (filter long_run runs) cur = filter long_run (runs ++ [cur]).
Proof.
  unfold flush. rewrite filter_app.
  case_bool_decide.
  - by rewrite (filter_cons_True long_run).
  - rewrite (filter_cons_False long_run) by done. by rewrite app_nil_r.
Qed.

Lemma last_app_nonempty {A} (l cur : list A) :
  cur ≠ [] -> last (l ++ cur) = last cur.
Proof.
  intros Hne. destruct cur as [| x cur _] using rev_ind; [done |].
  by rewrite app_assoc, !last_snoc.
Qed.

(** The scan of a non-empty sorted list holds: closed runs and a running
    one that together are the list read so far. *)
Lemma scan_runs l :
  Sorted timestamp_le l -> l ≠ [] ->
  exists runs cur,
    current_sequence (cascade_scan l) = cur /\ cur ≠ []
    /\ concat runs ++ cur = l
    /\ Forall (fun r => r ≠ []) runs
    /\ Forall chain runs /\ chain cur
    /\ separated (runs ++ [cur])
    /\ sequences (cascade_scan l) = filter long_run runs
    /\ last_timestamp (cascade_scan l) = comes_timestamp <$> last cur.
Proof.
  induction l as [| a l IH] using rev_ind; [done |].
  intros Hsorted _. apply Sorted_snoc_inv in Hsorted as [Hsorted Hle].
  rewrite cascade_scan_snoc.
  destruct (decide (l = [])) as [-> | Hne].
  - exists [], [a]. by repeat split.
  - destruct (IH Hsorted Hne)
      as (runs & cur & Hcur & Hcne & Hcat & Hnes & Hchains & Hchain & Hsep
          & Hseqs & Hts).
    assert (Hlast : last l = last cur) by (by rewrite <- Hcat, last_app_nonempty).
    destruct (last cur) as [p |] eqn:Hp;
      [| by destruct cur using rev_ind; [| rewrite last_snoc in Hp]].
    specialize (Hle p Hlast). unfold timestamp_le in Hle.
    unfold cascade_step. rewrite Hts. simpl. unfold within_gap.
    destruct (Z.leb_spec (comes_timestamp a - comes_timestamp p)
                (300 * 1000000)) as [Hgap | Hgap].
    + exists runs, (cur ++ [a]). simpl. rewrite Hcur, last_snoc.
      repeat split; try done.
      * by destruct cur.
      * by rewrite app_assoc, Hcat.
      * apply chain_snoc; [done |]. intros q Hq. rewrite Hp in Hq.
        injection Hq as <-. unfold gap_ok. lia.
      * eapply separated_last_change; [| done]. by destruct cur.
    + exists (runs ++ [cur]), [a]. simpl. rewrite Hcur, Hseqs.
      repeat split; try done.
      * rewrite concat_app. simpl. by rewrite app_nil_r, Hcat.
      * apply Forall_app. split; [done |]. by constructor.
      * apply Forall_app. split; [done |]. by constructor.
      * apply separated_snoc; [done |]. intros x y Hx Hy.
        rewrite Hp in Hx. injection Hx as <-. injection Hy as <-. lia.
      * apply flush_filter.
Qed.

(** X1. [get_cascading_sequences] cuts the records, sorted by activation
    time, into consecutive non-empty runs: inside a run every record is
    followed by one at most 300 s later, every run starts more than 300 s
    after the end of the run before it, and the sequences returned are the
    runs of three records or more, in order. *)
Theorem cascading_sequences_are_long_runs (self : KronesAlarmDataParser) :
  exists runs,
    concat runs = sorted_alarms (alarms self)
    /\ Forall (fun r => r ≠ []) runs
    /\ Forall chain runs
    /\ separated runs
    /\ get_cascading_sequences self = filter long_run runs.
Proof.
  unfold get_cascading_sequences.
  pose proof (sorted_alarms_sorted (alarms self)) as Hsorted.
  destruct (decide (sorted_alarms (alarms self) = [])) as [E | Hne].
  - rewrite E. exists []. by repeat split.
  - destruct (scan_runs _ Hsorted Hne)
      as (runs & cur & Hcur & Hcne & Hcat & Hnes & Hchains & Hchain & Hsep
          & Hseqs & _).
    exists (runs ++ [cur]). rewrite Hcur, Hseqs.
    repeat split; try done.
    + rewrite concat_app. simpl. by rewrite app_nil_r.
    + apply Forall_app. split; [done |]. by constructor.
    + apply Forall_app. split; [done |]. by constructor.
    + apply flush_filter.
Qed.

Lemma chain_snoc_inv l a :
  chain (l ++ [a]) ->
  chain l /\ forall p, last l = Some p -> gap_ok p a.
Proof.
  induction l as [| x l IH]; [done |].
  destruct l as [| y l]; simpl in *.
  - intros [H _]. split; [done |]. intros p Hp. by injection Hp as <-.
  - intros [Hxy Hc]. destruct (IH Hc) as [Hl Hlast].
    split; [split; [exact Hxy | exact Hl] | exact Hlast].
Qed.

Lemma scan_chain l :
  chain l -> l ≠ [] ->
  cascade_scan l = mkScan [] l (comes_timestamp <$> last l).
Proof.
  induction l as [| a l IH] using rev_ind; [done |].
  intros Hc _. apply chain_snoc_inv in Hc as [Hc Hgap].
  rewrite cascade_scan_snoc, last_snoc.
  destruct (decide (l = [])) as [-> | Hne]; [done |].
  rewrite (IH Hc Hne). unfold cascade_step. simpl.
  destruct (last l) as [p |] eqn:Hp;
    [| by destruct l using rev_ind; [| rewrite last_snoc in Hp]].
  simpl. destruct (Hgap p eq_refl) as [_ Hle]. unfold within_gap.
  by rewrite (proj2 (Z.leb_le _ _) Hle).
Qed.

(** X2. With fewer than three records there is no cascading sequence; with
    three records or more, each activated at most 300 s after the one
    before it in time order, there is exactly one sequence and it holds all
    the records in time order. *)
Theorem cascading_sequences_single_burst (self : KronesAlarmDataParser) :
  ((length (alarms self) < 3)%nat -> get_cascading_sequences self = [])
  /\ ((3 ≤ length (alarms self))%nat ->
      chain (sorted_alarms (alarms self)) ->
      get_cascading_sequences self = [sorted_alarms (alarms self)]).
Proof.
  assert (Hlen : length (sorted_alarms (alarms self)) = length (alarms self))
    by (by rewrite sorted_alarms_perm).
  split.
  - intros Hshort. unfold get_cascading_sequences, cascade_scan.
    set (l := sorted_alarms (alarms self)) in *.
    set (st := fold_left cascade_step l scan_init).
    assert (Hall : Forall (fun s => 3 ≤ length s)%nat
                     (flush (sequences st) (current_sequence st))).
    { apply flush_lengths, fold_cascade_lengths. constructor. }
    assert (Hsub : concat (flush (sequences st) (current_sequence st))
                   `sublist_of` l).
    { etrans; [apply flush_sublist |]. apply (fold_cascade_kept l scan_init). }
    destruct (flush _ _) as [| s rest]; [done |].
    apply Forall_cons in Hall as [Hs _]. apply sublist_length in Hsub.
    simpl in Hsub. rewrite length_app in Hsub. lia.
  - intros Hlong Hchain. unfold get_cascading_sequences.
    assert (Hne : sorted_alarms (alarms self) ≠ []).
    { intros E. rewrite E in Hlen. simpl in Hlen. lia. }
    rewrite (scan_chain _ Hchain Hne). simpl. unfold flush.
    by rewrite bool_decide_eq_true_2 by lia.
Qed.

Lemma cascading_sequences_single_burst_witness :
  get_cascading_sequences three_alarms = [sorted_alarms (alarms three_alarms)].
Proof.
  apply (proj2 (cascading_sequences_single_burst three_alarms)).
  - vm_compute. lia.
  - vm_compute. repeat split; discriminate.
Defined.

(** ** Pattern buckets, duration statistics, message catalog *)

(** X3. In a pattern index built from an empty one, the bucket of a key is
    the list of the records with that key, in parse order, and no bucket is
    empty: a key that no record has is absent. *)
Theorem pattern_buckets (self : KronesAlarmDataParser) (key : string) :
  alarm_patterns self = ∅ ->
  let index := alarm_patterns (_build_alarm_patterns self) in
  let group := filter (fun a => pattern_key a = key) (alarms self) in
  (group = [] -> index !! key = None)
  /\ (group ≠ [] -> index !! key = Some group)
  /\ (forall a, a ∈ alarms self ->
        exists bucket, index !! pattern_key a = Some bucket /\ a ∈ bucket).
Proof.
  intros Hempty index group.
  assert (Hdef : forall k,
    default [] (index !! k)
    = filter (fun a => pattern_key a = k) (alarms self)).
  { intros k. subst index. simpl.
    by rewrite build_patterns_lookup, Hempty, lookup_empty. }
  assert (Hne : forall k l, index !! k = Some l -> l ≠ []).
  { intros k l. subst index. simpl. apply build_patterns_nonempty.
    intros k' l'. by rewrite Hempty, lookup_empty. }
  assert (Hsome : forall k,
    filter (fun a => pattern_key a = k) (alarms self) ≠ [] ->
    index !! k = Some (filter (fun a => pattern_key a = k) (alarms self))).
  { intros k Hg. specialize (Hdef k).
    destruct (index !! k) as [l |]; simpl in Hdef; [by rewrite Hdef |].
    by rewrite <- Hdef in Hg. }
  split; [| split].
  - intros Hg. specialize (Hdef key). fold group in Hdef.
    destruct (index !! key) as [l |] eqn:E; [| done].
    simpl in Hdef. apply Hne in E. congruence.
  - apply Hsome.
  - intros a Ha.
    assert (Hin : a ∈ filter (fun b => pattern_key b = pattern_key a)
                        (alarms self))
      by (by apply list_elem_of_filter).
    eexists. split; [apply Hsome | done].
    intros E. rewrite E in Hin. by apply elem_of_nil in Hin.
Qed.

Lemma pattern_buckets_witness :
  alarm_patterns (_build_alarm_patterns twelve_alarms) !! "MMA_Fault"
  = Some (filter (fun a => pattern_key a = "MMA_Fault") (alarms twelve_alarms)).
Proof.
  apply (proj1 (proj2 (pattern_buckets twelve_alarms "MMA_Fault" eq_refl))).
  vm_compute. discriminate.
Defined.

Lemma add_duration_lookup samples a key :
  default [] (add_duration samples a !! key)
  = default [] (samples !! key)
    ++ (if decide (pattern_key a = key)
        then option_list (duration_ms a) else []).
Proof.
  unfold add_duration. destruct (duration_ms a) as [d |]; simpl.
  - destruct (decide (pattern_key a = key)) as [<- | Hne].
    + rewrite lookup_insert_eq. simpl.
      destruct (samples !! pattern_key a) eqn:E; [by rewrite E |].
      by rewrite lookup_insert_eq.
    + rewrite lookup_insert_ne by done.
      destruct (samples !! pattern_key a); rewrite ?lookup_insert_ne by done;
        by rewrite app_nil_r.
  - destruct (decide _); by rewrite app_nil_r.
Qed.

Lemma add_duration_nonempty samples a key l :
  (forall k l, samples !! k = Some l -> l ≠ []) ->
  add_duration samples a !! key = Some l -> l ≠ [].
Proof.
  intros Hne. unfold add_duration.
  destruct (duration_ms a) as [d |]; [| apply Hne].
  destruct (decide (pattern_key a = key)) as [<- | Hk].
  - rewrite lookup_insert_eq. intros [= <-]. by destruct (default _ _).
  - rewrite lookup_insert_ne by done.
    destruct (samples !! pattern_key a); rewrite ?lookup_insert_ne by done;
      apply Hne.
Qed.

Lemma duration_samples_lookup l samples key :
  default [] (fold_left add_duration l samples !! key)
  = default [] (samples !! key)
    ++ omap duration_ms (filter (fun a => pattern_key a = key) l).
Proof.
  revert samples. induction l as [| a l IH]; intros samples; simpl.
  - by rewrite app_nil_r.
  - rewrite IH, add_duration_lookup, <- app_assoc. f_equal.
    rewrite filter_cons. destruct (decide _); [| done].
    simpl. by destruct (duration_ms a).
Qed.

Lemma duration_samples_nonempty l samples key g :
  (forall k l, samples !! k = Some l -> l ≠ []) ->
  fold_left add_duration l samples !! key = Some g -> g ≠ [].
Proof.
  revert samples. induction l as [| a l IH]; intros samples Hne; simpl.
  - apply Hne.
  - apply IH. intros k l'. by apply add_duration_nonempty.
Qed.

Lemma fold_min_spec ds d :
  fold_left Z.min ds d ∈ d :: ds
  /\ forall x, x ∈ d :: ds -> fold_left Z.min ds d <= x.
Proof.
  revert d. induction ds as [| y ds IH]; intros d; simpl.
  - split; [left |]. intros x Hx. apply list_elem_of_singleton in Hx. lia.
  - destruct (IH (Z.min d y)) as [Hin Hle]. split.
    + apply elem_of_cons in Hin as [-> | Hin].
      * destruct (Z.min_spec d y) as [[_ ->] | [_ ->]]; [left | right; left].
      * by do 2 right.
    + intros x Hx.
      assert (fold_left Z.min ds (Z.min d y) <= Z.min d y) by (apply Hle; left).
      apply elem_of_cons in Hx as [-> | Hx]; [lia |].
      apply elem_of_cons in Hx as [-> | Hx]; [lia |].
      apply Hle. by right.
Qed.

Lemma fold_max_spec ds d :
  fold_left Z.max ds d ∈ d :: ds
  /\ forall x, x ∈ d :: ds -> x <= fold_left Z.max ds d.
Proof.
  revert d. induction ds as [| y ds IH]; intros d; simpl.
  - split; [left |]. intros x Hx. apply list_elem_of_singleton in Hx. lia.
  - destruct (IH (Z.max d y)) as [Hin Hle]. split.
    + apply elem_of_cons in Hin as [-> | Hin].
      * destruct (Z.max_spec d y) as [[_ ->] | [_ ->]]; [right; left | left].
      * by do 2 right.
    + intros x Hx.
      assert (Z.max d y <= fold_left Z.max ds (Z.max d y)) by (apply Hle; left).
      apply elem_of_cons in Hx as [-> | Hx]; [lia |].
      apply elem_of_cons in Hx as [-> | Hx]; [lia |].
      apply Hle. by right.
Qed.

(** X4. [get_typical_durations] has an entry for a key exactly when some
    record with that key has a duration. The entry counts those records,
    its minimum and maximum are durations of such records and bound all of
    them, and its mean is the sum of these durations divided by their
    number; records without a duration contribute nothing. *)
Theorem typical_durations_stats (self : KronesAlarmDataParser) (key : string) :
  let ds := omap duration_ms
              (filter (fun a => pattern_key a = key) (alarms self)) in
  let stats := get_typical_durations self in
  (stats !! key = None <-> ds = [])
  /\ forall s, stats !! key = Some s ->
       stat_count s = length ds
       /\ stat_min s ∈ ds /\ stat_max s ∈ ds
       /\ (forall d, d ∈ ds -> stat_min s <= d <= stat_max s)
       /\ stat_mean s
          = (PyFloat.of_int (py_sum ds)
             / PyFloat.of_int (Z.of_nat (length ds)))%float.
Proof.
  intros ds stats.
  assert (Hlook : stats !! key = stats_of ds).
  { subst stats. unfold get_typical_durations. rewrite lookup_omap.
    pose proof (duration_samples_lookup (alarms self) ∅ key) as Hdef.
    rewrite lookup_empty in Hdef. simpl in Hdef. fold ds in Hdef.
    destruct (fold_left add_duration (alarms self) ∅ !! key) as [l |] eqn:E;
      simpl in *; [by rewrite Hdef | by rewrite <- Hdef]. }
  rewrite Hlook. split.
  - by destruct ds.
  - intros s. destruct ds as [| d ds']; [done |]. simpl. intros [= <-]. simpl.
    destruct (fold_min_spec ds' d) as [Hmin_in Hmin_le].
    destruct (fold_max_spec ds' d) as [Hmax_in Hmax_le].
    repeat split; try done; [by apply Hmin_le | by apply Hmax_le].
Qed.

Lemma add_message_lookup messages a k :
  default [] (add_message messages a !! k)
  = (if decide (module a = k) then
       if decide (message a ∈ default [] (messages !! k))
       then default [] (messages !! k)
       else default [] (messages !! k) ++ [message a]
     else default [] (messages !! k)).
Proof.
  unfold add_message.
  set (messages' := match messages !! module a with
                    | Some _ => messages
                    | None => <[module a := []]> messages
                    end).
  assert (Hdef : forall j, default [] (messages' !! j) = default [] (messages !! j)).
  { intros j. subst messages'. destruct (messages !! module a) eqn:E; [done |].
    destruct (decide (module a = j)) as [<- | Hne].
    - by rewrite lookup_insert_eq, E.
    - by rewrite lookup_insert_ne. }
  rewrite Hdef.
  destruct (decide (module a = k)) as [<- | Hne].
  - case_bool_decide.
    + rewrite decide_True by done. apply Hdef.
    + rewrite decide_False by done. by rewrite lookup_insert_eq.
  - case_bool_decide; [apply Hdef |].
    rewrite lookup_insert_ne by done. apply Hdef.
Qed.

Lemma add_message_key messages a k :
  is_Some (add_message messages a !! k)
  <-> is_Some (messages !! k) \/ module a = k.
Proof.
  unfold add_message.
  set (messages' := match messages !! module a with
                    | Some _ => messages
                    | None => <[module a := []]> messages
                    end).
  assert (Hkey : is_Some (messages' !! k)
                 <-> is_Some (messages !! k) \/ module a = k).
  { subst messages'. destruct (messages !! module a) eqn:E.
    - split; [by left |]. intros [H | <-]; [done | by rewrite E].
    - rewrite lookup_insert. case_decide.
      + split; [by right | eauto].
      + split; [by left |]. by intros [H' | H']. }
  case_bool_decide; [done |].
  rewrite lookup_insert. case_decide; [| done].
  split; [by right | eauto].
Qed.

Lemma catalog_fold l messages k :
  let before := default [] (messages !! k) in
  let after := default [] (fold_left add_message l messages !! k) in
  (NoDup before -> NoDup after)
  /\ (forall s, s ∈ after
        <-> s ∈ before \/ exists a, a ∈ l /\ module a = k /\ message a = s)
  /\ after `sublist_of`
       before ++ map message (filter (fun a => module a = k) l)
  /\ (is_Some (fold_left add_message l messages !! k)
      <-> is_Some (messages !! k) \/ exists a, a ∈ l /\ module a = k).
Proof.
  revert messages. induction l as [| a l IH]; intros messages before after.
  - subst before after. simpl. split; [done |]. split; [| split].
    + intros s. split; [by left |]. intros [H | (a & Ha & _)]; [done |].
      by apply elem_of_nil in Ha.
    + by rewrite app_nil_r.
    + split; [by left |]. intros [H | (a & Ha & _)]; [done |].
      by apply elem_of_nil in Ha.
  - subst before after. simpl.
    destruct (IH (add_message messages a)) as (Hnd & Hin & Hsub & Hkey).
    rewrite add_message_lookup in Hnd, Hin, Hsub.
    rewrite add_message_key in Hkey.
    split; [| split; [| split]].
    + intros Hb. apply Hnd.
      destruct (decide (module a = k)); [| done].
      destruct (decide (message a ∈ _)); [done |].
      apply NoDup_app. split; [done |]. split; [| apply NoDup_singleton].
      intros x Hx Hx'. apply list_elem_of_singleton in Hx'. by subst.
    + intros s. rewrite Hin. split.
      * intros [Hs | (b & Hb & Hm & Hs)].
        -- destruct (decide (module a = k)) as [Hk |]; [| by left].
           destruct (decide (message a ∈ _)); [by left |].
           apply elem_of_app in Hs as [Hs | Hs]; [by left |].
           apply list_elem_of_singleton in Hs. right. exists a.
           split; [left | done].
        -- right. exists b. split; [by right | done].
      * intros [Hs | (b & Hb & Hm & Hs)].
        -- left. destruct (decide (module a = k)); [| done].
           destruct (decide (message a ∈ _)); [done |].
           apply elem_of_app. by left.
        -- apply elem_of_cons in Hb as [-> | Hb].
           ++ left. rewrite decide_True by done.
              destruct (decide (message a ∈ _)); [by subst |].
              apply elem_of_app. right. subst. left.
           ++ right. by exists b.
    + etrans; [apply Hsub |]. rewrite filter_cons.
      destruct (decide (module a = k)); [| done].
      destruct (decide (message a ∈ _)).
      * simpl. apply sublist_app; [done |]. by apply sublist_cons.
      * simpl. by rewrite <- app_assoc.
    + rewrite Hkey. split.
      * intros [[H | H] | (b & Hb & Hm)]; [by left | |].
        -- right. exists a. split; [left | done].
        -- right. exists b. split; [by right | done].
      * intros [H | (b & Hb & Hm)]; [by left; left |].
        apply elem_of_cons in Hb as [-> | Hb]; [by left; right |].
        right. by exists b.
Qed.

Lemma filter_unseen_snoc (seen : list string) (x : string) (l : list string) :
  filter (fun s => s ∉ seen ++ [x]) l
  = filter (fun s => s ∉ seen) (filter (fun y => y ≠ x) l).
Proof.
  rewrite list_filter_filter. apply list_filter_iff. intros s.
  rewrite elem_of_app, list_elem_of_singleton. tauto.
Qed.

Lemma filter_unseen_seen (seen : list string) (x : string) (l : list string) :
  x ∈ seen ->
  filter (fun s => s ∉ seen) (filter (fun y => y ≠ x) l)
  = filter (fun s => s ∉ seen) l.
Proof.
  intros Hx. rewrite list_filter_filter. apply list_filter_iff. intros s.
  split; [tauto |]. intros Hs. split; [done |]. by intros ->.
Qed.

(** The loop of [get_sample_alarm_messages] appends to the list of a module
    the messages not yet listed, in the order of their first occurrence. *)
Lemma catalog_order l messages k :
  default [] (fold_left add_message l messages !! k)
  = default [] (messages !! k)
    ++ filter (fun s => s ∉ default [] (messages !! k))
         (first_occurrences
            (map message (filter (fun a => module a = k) l))).
Proof.
  revert messages. induction l as [| a l IH]; intros messages.
  - simpl. by rewrite app_nil_r.
  - simpl. rewrite IH, add_message_lookup, filter_cons.
    destruct (decide (module a = k)) as [Hk | Hk]; [| done].
    simpl. destruct (decide (message a ∈ default [] (messages !! k)))
      as [Hin | Hin].
    + rewrite filter_cons_False by tauto.
      by rewrite filter_unseen_seen.
    + rewrite filter_cons_True by done.
      by rewrite filter_unseen_snoc, <- app_assoc.
Qed.

(** X5. [get_sample_alarm_messages] lists a module exactly when some record
    has it; the messages listed for a module are exactly the messages of
    its records, each once, in the order of their first occurrence in the
    parsed records (a subsequence of the records' messages). *)
Theorem sample_messages_catalog (self : KronesAlarmDataParser) (m : string) :
  let catalog := get_sample_alarm_messages self in
  let msgs := default [] (catalog !! m) in
  NoDup msgs
  /\ (forall s, s ∈ msgs
        <-> exists a, a ∈ alarms self /\ module a = m /\ message a = s)
  /\ msgs `sublist_of`
       map message (filter (fun a => module a = m) (alarms self))
  /\ (is_Some (catalog !! m) <-> exists a, a ∈ alarms self /\ module a = m)
  /\ msgs
     = first_occurrences
         (map message (filter (fun a => module a = m) (alarms self))).
Proof.
  intros catalog msgs. subst msgs catalog. unfold get_sample_alarm_messages.
  destruct (catalog_fold (alarms self) ∅ m) as (Hnd & Hin & Hsub & Hkey).
  pose proof (catalog_order (alarms self) ∅ m) as Hord.
  rewrite lookup_empty in *. simpl in *.
  split; [apply Hnd, NoDup_nil_2 |]. split; [| split; [done |]].
  - intros s. rewrite (Hin s). split; [| by right].
    intros [H | H]; [by apply elem_of_nil in H | done].
  - split.
    + rewrite Hkey. split; [| by right].
      intros [[? H] | H]; [done | done].
    + rewrite Hord.
      generalize (first_occurrences
                    (map message
                       (filter (fun a => module a = m) (alarms self)))).
      intros l. induction l as [| s l IH]; [done |].
      rewrite filter_cons_True by apply not_elem_of_nil. by rewrite IH.
Qed.

(** ** Loading *)

Lemma iloc_ok_iff (r : row) (i : nat) :
  (exists c, iloc r i = ok c) <-> (i < length r)%nat.
Proof.
  unfold iloc. split.
  - intros [c Hc]. destruct (r !! i) eqn:E; [| done].
    by apply lookup_lt_Some in E.
  - intros Hi. destruct (lookup_lt_is_Some_2 r i Hi) as [c ->]. by exists c.
Qed.

Lemma qualifies_ok_iff (r : row) :
  (exists b, qualifies r = ok b) <-> (37 ≤ length r)%nat.
Proof.
  split.
  - intros [b Hb]. unfold qualifies, rbind in Hb.
    destruct (iloc r 10); [done |]. destruct (iloc r 34); [done |].
    destruct (iloc r 35); [done |].
    destruct (iloc r 36) as [| c36] eqn:E; [done |].
    assert (36 < length r)%nat by (apply iloc_ok_iff; eauto). lia.
  - intros Hlen. unfold qualifies, rbind.
    destruct (proj2 (iloc_ok_iff r 10) ltac:(lia)) as [c10 ->].
    destruct (proj2 (iloc_ok_iff r 34) ltac:(lia)) as [c34 ->].
    destruct (proj2 (iloc_ok_iff r 35) ltac:(lia)) as [c35 ->].
    destruct (proj2 (iloc_ok_iff r 36) ltac:(lia)) as [c36 ->].
    eauto.
Qed.

Lemma filter_alarm_rows_ok_iff (df : list row) :
  (exists rows, filter_alarm_rows df = ok rows)
  <-> Forall (fun r => (37 ≤ length r)%nat) df.
Proof.
  induction df as [| r df IH]; simpl.
  - split; [constructor | by exists []].
  - rewrite Forall_cons, <- IH, <- qualifies_ok_iff. unfold rbind.
    split.
    + intros [rows H]. destruct (qualifies r) as [| b]; [done |].
      destruct (filter_alarm_rows df) as [| rest]; [done |]. eauto.
    + intros [[b ->] [rest ->]]. eauto.
Qed.

Lemma filter_alarm_rows_spec (df rows : list row) :
  filter_alarm_rows df = ok rows ->
  Forall (fun r => qualifies r = ok true) rows /\ rows `sublist_of` df.
Proof.
  revert rows. induction df as [| r df IH]; simpl; intros rows.
  - intros [= <-]. by split.
  - unfold rbind. destruct (qualifies r) as [| b] eqn:Hq; [done |].
    destruct (filter_alarm_rows df) as [| rest]; [done |].
    destruct (IH rest eq_refl) as [Hall Hsub].
    intros [= <-]. destruct b.
    + split; [by constructor | by apply sublist_skip].
    + split; [done | by apply sublist_cons].
Qed.

Lemma alarm_rows_of_ok_iff (df : DataFrame) :
  frame_ok df ->
  (exists rows, alarm_rows_of df = ok rows) <-> (37 ≤ n_columns df)%nat.
Proof.
  intros Hok. unfold alarm_rows_of, has_column.
  destruct (decide (37 ≤ n_columns df)%nat) as [Hw | Hw].
  - rewrite !bool_decide_eq_true_2 by lia. simpl.
    rewrite filter_alarm_rows_ok_iff. split; [done |]. intros _.
    eapply Forall_impl; [exact Hok |]. simpl. intros r ->. done.
  - split; [| done]. intros [rows H].
    repeat case_bool_decide; simpl in H; try done; lia.
Qed.

Lemma alarm_rows_of_spec (df : DataFrame) (rows : list row) :
  alarm_rows_of df = ok rows ->
  Forall (fun r => qualifies r = ok true) rows
  /\ rows `sublist_of` frame_rows df.
Proof.
  unfold alarm_rows_of, has_column.
  repeat case_bool_decide; simpl; try done. apply filter_alarm_rows_spec.
Qed.

Section LoadFacts.

Variable strptime_ms : string -> option datetime.
Variable strptime_s : string -> option datetime.
Variable float_repr : float -> string.

Lemma parse_row_alarm_type now_c now_g (r : row) a :
  qualifies r = ok true ->
  fst (_parse_alarm_row strptime_ms strptime_s float_repr now_c now_g r)
  = Some a ->
  alarm_type a ∈ severities.
Proof.
  intros Hq Ha.
  destruct (qualifies_inv r Hq)
    as (c10 & c34 & c35 & c36 & H10 & H34 & H35 & H36 & Hsev & _).
  unfold _parse_alarm_row, parse_alarm_row_body in Ha.
  destruct (iloc r 11) as [| c11]; [done |]. simpl in Ha.
  destruct (iloc r 19) as [| c19]; [done |]. simpl in Ha.
  destruct (_ || _); [done |].
  rewrite H34, H35 in Ha. simpl in Ha.
  destruct (py_int c35) as [| n]; [done |]. simpl in Ha.
  rewrite H10, H36 in Ha. simpl in Ha.
  destruct (iloc r 37) as [| c37]; [done |]. simpl in Ha.
  assert (Hty : py_str float_repr c10 ∈ severities).
  { destruct c10 as [| s | | |]; try done. simpl in *.
    by apply bool_decide_eq_true in Hsev. }
  unfold KronesAlarm_new, __post_init__ in Ha. simpl in Ha.
  destruct (if bool_decide (py_str float_repr c19 ≠ "nan") then _ else _);
    simpl in Ha.
  - destruct (PyFloat.to_int _); simpl in Ha; [done |].
    by injection Ha as <-.
  - by injection Ha as <-.
Qed.

Lemma parse_rows_appends clock i (rows : list row) self :
  Forall (fun r => qualifies r = ok true) rows ->
  exists new,
    alarms (parse_rows strptime_ms strptime_s float_repr clock i rows self)
    = alarms self ++ new
    /\ Forall (fun a => alarm_type a ∈ severities) new
    /\ (length new ≤ length rows)%nat
    /\ alarm_patterns
         (parse_rows strptime_ms strptime_s float_repr clock i rows self)
       = alarm_patterns self.
Proof.
  intros Hrows. revert i self.
  induction Hrows as [| r rows Hr _ IH]; intros i self.
  - exists []. simpl. by rewrite app_nil_r.
  - rewrite parse_rows_cons.
    destruct (IH (S i)
                (mkParser
                   (alarms self
                    ++ option_list
                         (fst (_parse_alarm_row strptime_ms strptime_s
                                 float_repr (fst (clock i)) (snd (clock i)) r)))
                   (alarm_patterns self)
                   (parser_log self
                    ++ snd (_parse_alarm_row strptime_ms strptime_s
                              float_repr (fst (clock i)) (snd (clock i)) r))))
      as (new & Hnew & Hsev & Hlen & Hpat).
    rewrite Hnew, Hpat. simpl.
    destruct (fst (_parse_alarm_row _ _ _ _ _ r)) as [a |] eqn:Ha; simpl.
    + exists (a :: new). rewrite <- app_assoc. simpl.
      repeat split; [| lia].
      constructor; [| done]. by eapply parse_row_alarm_type.
    + exists new. rewrite app_nil_r. repeat split; [done | lia].
Qed.

(** X6. [load_alarm_data] returns [False] and leaves the records and the
    pattern index as they were when the file is missing, when [read_csv]
    raises, or when the frame has fewer than 37 columns, with or without
    rows; on a frame of 37 columns or more it returns [True], and the
    records it appends, at most one per row, all carry one of the five
    known alarm types. *)
Theorem load_alarm_data_outcomes (clock : nat -> datetime * datetime)
    (self : KronesAlarmDataParser) :
  (forall csv,
     csv = CsvMissing \/ (exists e, csv = CsvUnreadable e) ->
     let res := load_alarm_data strptime_ms strptime_s float_repr csv clock
                  self in
     fst res = false /\ alarms (snd res) = alarms self
     /\ alarm_patterns (snd res) = alarm_patterns self)
  /\ forall df,
       frame_ok df ->
       let res := load_alarm_data strptime_ms strptime_s float_repr
                    (CsvFrame df) clock self in
       (fst res = true <-> (37 ≤ n_columns df)%nat)
       /\ (fst res = false ->
           alarms (snd res) = alarms self
           /\ alarm_patterns (snd res) = alarm_patterns self)
       /\ (fst res = true ->
           exists new,
             alarms (snd res) = alarms self ++ new
             /\ Forall (fun a => alarm_type a ∈ severities) new
             /\ (length new ≤ length (frame_rows df))%nat).
Proof.
  split; [by intros csv [-> | [e ->]] |].
  intros df Hok res. subst res. unfold load_alarm_data.
  pose proof (alarm_rows_of_ok_iff df Hok) as Hiff.
  destruct (alarm_rows_of df) as [e | rows] eqn:Hf; simpl.
  - split; [| split; [done | done]].
    split; [done |]. intros H. apply Hiff in H as [rows H]. done.
  - split; [| split; [done |]].
    + split; [| done]. intros _. apply Hiff. eauto.
    + intros _. destruct (alarm_rows_of_spec df rows Hf) as [Hall Hsub].
      destruct (parse_rows_appends clock 0%nat rows
                  (mkParser (alarms self) (alarm_patterns self)
                     ((parser_log self
                       ++ [(INFO, MsgFoundEntries (length rows))])
                      ++ [(INFO, MsgSampleRows)]
                      ++ sample_rows rows)) Hall)
        as (new & Hnew & Hsev & Hlen & _).
      exists new. apply sublist_length in Hsub.
      repeat split; [| done | lia]. simpl in Hnew.
      rewrite <- Hnew. f_equal. f_equal. f_equal. by rewrite <- app_assoc.
Qed.

End LoadFacts.

Lemma load_alarm_data_outcomes_witness :
  fst (sample_load hundred_rows) = true
  /\ fst (load_alarm_data RefStrptime.strptime_ms RefStrptime.strptime_s
            RefStrptime.float_repr (CsvFrame (mkFrame 12 [])) sample_clock
            parser_init) = false.
Proof.
  split.
  - assert (Hok : frame_ok (mkFrame 38 hundred_rows)).
    { apply (bool_decide_unpack _). by vm_compute. }
    apply (proj1 (proj2 (load_alarm_data_outcomes RefStrptime.strptime_ms
                           RefStrptime.strptime_s RefStrptime.float_repr
                           sample_clock parser_init)
                    (mkFrame 38 hundred_rows) Hok)).
    simpl. lia.
  - assert (Hok : frame_ok (mkFrame 12 [])) by constructor.
    destruct (fst (load_alarm_data RefStrptime.strptime_ms
                     RefStrptime.strptime_s RefStrptime.float_repr
                     (CsvFrame (mkFrame 12 [])) sample_clock parser_init))
      eqn:E; [| done].
    apply (proj1 (proj2 (load_alarm_data_outcomes RefStrptime.strptime_ms
                           RefStrptime.strptime_s RefStrptime.float_repr
                           sample_clock parser_init)
                    (mkFrame 12 []) Hok)) in E.
    simpl in E. lia.
Defined.

(** ** More on activation and replay *)

Lemma lower_ascii_not_B (c : ascii) : PyStr.lower_ascii c ≠ "B"%char.
Proof. destruct c as [[] [] [] [] [] [] [] []]; vm_compute; discriminate. Qed.

Lemma lowered_has_no_BCM_server (s : string) :
  PyStr.contains "BCM server" (PyStr.lower s) = false.
Proof.
  induction s as [| c s IH]; [reflexivity |].
  change (PyStr.lower (String c s))
    with (String (PyStr.lower_ascii c) (PyStr.lower s)).
  change (PyStr.contains "BCM server"
            (String (PyStr.lower_ascii c) (PyStr.lower s)))
    with (String.prefix "BCM server"
            (String (PyStr.lower_ascii c) (PyStr.lower s))
          || PyStr.contains "BCM server" (PyStr.lower s)).
  rewrite IH, orb_false_r.
  change (String.prefix "BCM server"
            (String (PyStr.lower_ascii c) (PyStr.lower s)))
    with (if ascii_dec "B" (PyStr.lower_ascii c)
          then String.prefix "CM server" (PyStr.lower s) else false).
  destruct (ascii_dec "B" (PyStr.lower_ascii c)) as [E | _]; [| done].
  by destruct (lower_ascii_not_B c).
Qed.

(** X7. Activating an alarm of module BAS writes no tag, whatever its
    message: the rule looks for "BCM server" in the lower-cased message,
    which holds no capital letter. The alarm is still added to the active
    list, and clearing it sets the two BAS tags to their nominal values. *)
Theorem bas_activation_writes_nothing (alarm : KronesAlarm)
    (deviation : float) (st : server) :
  module alarm = "BAS" ->
  activation_writes deviation alarm = []
  /\ tree (_activate_alarm alarm deviation st) = tree st
  /\ trace (_activate_alarm alarm deviation st)
     = trace st ++ [ALog (LogActivated alarm [])]
  /\ current_alarms (_activate_alarm alarm deviation st)
     = current_alarms st ++ [alarm]
  /\ tags (clear_writes alarm)
     = [bas_nodes.BCM_Server_Status; bas_nodes.Communication_Health].
Proof.
  intros Hm.
  assert (Hw : activation_writes deviation alarm = []).
  { unfold activation_writes. rewrite Hm. simpl.
    unfold msg_lower_has. by rewrite lowered_has_no_BCM_server. }
  split; [done |]. unfold _activate_alarm. rewrite Hw. simpl.
  repeat split. unfold clear_writes. by rewrite Hm.
Qed.

Lemma bas_activation_writes_nothing_witness :
  activation_writes 7.5 (sample_alarm "BAS" "BCM server not reachable" 0) = [].
Proof.
  exact (proj1 (bas_activation_writes_nothing
                  (sample_alarm "BAS" "BCM server not reachable" 0) 7.5
                  (server_start three_alarms) eq_refl)).
Defined.

Lemma activate_fold_current rnd (n : nat) (l : list (nat * KronesAlarm)) st :
  current_alarms
    (fold_left
       (fun st (ia : nat * KronesAlarm) =>
          let st' := _activate_alarm (snd ia) (r_dev rnd (fst ia)) st in
          if bool_decide (fst ia < n)%nat then sleep 0.01 st' else st')
       l st)
  = current_alarms st ++ map snd l.
Proof.
  revert st. induction l as [| ia l IH]; intros st.
  - simpl. by rewrite app_nil_r.
  - cbn [fold_left map]. rewrite IH. cbv zeta.
    assert (Hif : forall (b : bool) st',
      current_alarms (if b then sleep 0.01 st' else st') = current_alarms st')
      by (by intros []).
    by rewrite Hif, activate_current, <- app_assoc.
Qed.

Lemma imap_pair_snd {A} (l : list A) : map snd (imap pair l) = l.
Proof.
  assert (H : forall (f : nat -> nat),
    map snd (imap (fun i x => (f i, x)) l) = l).
  { induction l as [| x l IH]; intros f; [done |].
    simpl. f_equal. apply (IH (f ∘ S)). }
  apply (H (fun i => i)).
Qed.

Lemma trigger_sequence_current (rnd : tick_rand) (st : server) sequence :
  choice (r_seq rnd) (alarm_sequences st) = Some sequence ->
  current_alarms (_trigger_alarm_sequence rnd st)
  = current_alarms st ++ take 5 sequence.
Proof.
  unfold _trigger_alarm_sequence. intros ->.
  by rewrite activate_fold_current, imap_pair_snd.
Qed.

(** X8. [_trigger_alarm_sequence] activates the first five members of the
    drawn sequence (all of them when it has fewer), in order, after the
    alarms already active; without any sequence it does nothing. *)
Theorem trigger_sequence_first_five (rnd : tick_rand) (st : server) :
  (alarm_sequences st = [] -> _trigger_alarm_sequence rnd st = st)
  /\ forall sequence,
       choice (r_seq rnd) (alarm_sequences st) = Some sequence ->
       current_alarms (_trigger_alarm_sequence rnd st)
       = current_alarms st ++ take 5 sequence.
Proof.
  split.
  - unfold _trigger_alarm_sequence. by intros ->.
  - apply trigger_sequence_current.
Qed.

Lemma trigger_sequence_first_five_witness :
  current_alarms
    (_trigger_alarm_sequence sample_rand
       (mkServer (Some twelve_alarms) [alarms twelve_alarms] []
          initial_tree 0 0 []))
  = take 5 (alarms twelve_alarms).
Proof.
  apply (proj2 (trigger_sequence_first_five sample_rand
                  (mkServer (Some twelve_alarms) [alarms twelve_alarms] []
                     initial_tree 0 0 []))).
  reflexivity.
Defined.

(** ** The number of active alarms over the iterations *)

Lemma set_tags_data reason ws st :
  alarm_parser (fold_left (set_tag reason) ws st) = alarm_parser st
  /\ alarm_sequences (fold_left (set_tag reason) ws st) = alarm_sequences st.
Proof.
  revert st. induction ws as [| w ws IH]; intros st; [done |].
  simpl. by destruct (IH (set_tag reason st w)) as [-> ->].
Qed.

Lemma engine_step_data st l st' :
  engine_step st l st' ->
  alarm_parser st' = alarm_parser st
  /\ alarm_sequences st' = alarm_sequences st.
Proof.
  destruct 1 as [alarm dev st | r alarm st Hr | st | st | rd ut up st | a st].
  - unfold _activate_alarm. simpl.
    by destruct (set_tags_data "Alarm Activated"
                   (activation_writes dev alarm)
                   (set_current_alarms (current_alarms st ++ [alarm]) st))
      as [-> ->].
  - unfold _clear_random_alarm. rewrite Hr. simpl.
    by destruct (set_tags_data "Alarm Cleared" (clear_writes alarm)
                   (set_current_alarms
                      (list_remove alarm (current_alarms st)) st))
      as [-> ->].
  - done.
  - unfold _simulate_production_tick.
    destruct (production_rate_of _); [done |]. simpl.
    destruct (PyFloat.to_int _); [done |]. simpl.
    repeat match goal with |- context [if ?b then _ else _] => destruct b end;
      done.
  - done.
  - by destruct a.
Qed.

Lemma engine_steps_data st ls st' :
  engine_steps st ls st' ->
  alarm_parser st' = alarm_parser st
  /\ alarm_sequences st' = alarm_sequences st.
Proof.
  induction 1 as [| st l st1 ls st2 Hstep _ [IH1 IH2]]; [done |].
  destruct (engine_step_data _ _ _ Hstep) as [H1 H2].
  by rewrite IH1, IH2.
Qed.

Lemma engine_steps_others st ls st' :
  engine_steps st ls st' -> Forall (fun l => l = StepOther) ls ->
  current_alarms st' = current_alarms st.
Proof.
  induction 1 as [| st l st1 ls st2 Hstep _ IH]; [done |].
  intros Hall. apply Forall_cons in Hall as [-> Hall].
  rewrite (IH Hall). by destruct (engine_step_effect _ _ _ Hstep) as [-> _].
Qed.

Lemma run_actions_fields script st :
  current_alarms (fold_left run_action script st) = current_alarms st
  /\ alarm_parser (fold_left run_action script st) = alarm_parser st
  /\ alarm_sequences (fold_left run_action script st) = alarm_sequences st.
Proof.
  revert st. induction script as [| a script IH]; intros st; [done |].
  simpl. destruct (IH (run_action st a)) as (-> & -> & ->). by destruct a.
Qed.

Lemma choice_nonempty {A} (r : nat) (l : list A) :
  l ≠ [] -> exists x, choice r l = Some x.
Proof.
  intros Hne. unfold choice. apply lookup_lt_is_Some_2.
  apply Nat.mod_upper_bound. by destruct l.
Qed.

Lemma trigger_random_effect rnd st :
  length (current_alarms (_trigger_random_alarm rnd st))
  = (length (current_alarms st)
     + match alarm_parser st with
       | Some p => match alarms p with [] => 0 | _ :: _ => 1 end
       | None => 0
       end)%nat.
Proof.
  unfold _trigger_random_alarm.
  destruct (alarm_parser st) as [p |]; [| simpl; lia].
  destruct (alarms p) as [| a l] eqn:E; [simpl; lia |].
  destruct (choice_nonempty (r_alarm rnd) (a :: l) ltac:(done)) as [x ->].
  change (current_alarms (log ?m ?x)) with (current_alarms x).
  rewrite activate_current, length_app. simpl. lia.
Qed.

Lemma clear_if_active_effect r st :
  let st' := if bool_decide (current_alarms st ≠ [])
             then _clear_random_alarm r st else st in
  length (current_alarms st') = Nat.pred (length (current_alarms st))
  /\ alarm_parser st' = alarm_parser st
  /\ alarm_sequences st' = alarm_sequences st.
Proof.
  simpl. case_bool_decide as Hne.
  - destruct (choice_nonempty r _ Hne) as [a Ha].
    pose proof (step_clear r a st Ha) as Hstep.
    destruct (engine_step_effect _ _ _ Hstep) as (_ & _ & Hlen).
    destruct (engine_step_data _ _ _ Hstep) as [-> ->].
    split; [lia | done].
  - destruct (decide (current_alarms st = [])) as [E | E]; [| done].
    by rewrite E.
Qed.

Lemma trigger_sequence_effect rnd st :
  length (current_alarms (_trigger_alarm_sequence rnd st))
  = (length (current_alarms st)
     + match choice (r_seq rnd) (alarm_sequences st) with
       | Some sequence => Nat.min 5 (length sequence)
       | None => 0
       end)%nat
  /\ alarm_parser (_trigger_alarm_sequence rnd st) = alarm_parser st
  /\ alarm_sequences (_trigger_alarm_sequence rnd st) = alarm_sequences st.
Proof.
  destruct (trigger_alarm_sequence_steps rnd st) as [labels Hsteps].
  split; [| by apply (engine_steps_data _ _ _ Hsteps)].
  destruct (choice (r_seq rnd) (alarm_sequences st)) as [sequence |] eqn:E.
  - rewrite (trigger_sequence_current rnd st sequence E).
    by rewrite length_app, length_take.
  - unfold _trigger_alarm_sequence. rewrite E. lia.
Qed.

Lemma alarm_iteration_effect (now : float) (rnd : tick_rand)
    (ls : loop_state) (st : server) :
  let st' := snd (alarm_iteration now rnd (ls, st)) in
  length (current_alarms st') = iteration_count st rnd
  /\ alarm_parser st' = alarm_parser st
  /\ alarm_sequences st' = alarm_sequences st.
Proof.
  unfold alarm_iteration.
  set (s1 := if PrimFloat.ltb _ _ then _ else _).
  assert (H1 : current_alarms (snd s1) = current_alarms st
               /\ alarm_parser (snd s1) = alarm_parser st
               /\ alarm_sequences (snd s1) = alarm_sequences st).
  { subst s1. destruct (PrimFloat.ltb _ _); [| done].
    destruct (negb (scenario_toggle ls)); cbn [snd];
      unfold _trigger_scenario_a, _trigger_scenario_b;
      match goal with
      | |- context [fold_left run_action ?s ?x] =>
          destruct (run_actions_fields s x) as (-> & -> & ->)
      end; done. }
  destruct s1 as [ls1 st1]. cbn [fst snd] in *.
  destruct H1 as (Hc1 & Hp1 & Hs1).
  destruct (trigger_sequence_effect rnd st1) as (Hc2 & Hp2 & Hs2).
  set (st2 := _trigger_alarm_sequence rnd st1) in *.
  destruct (clear_if_active_effect (r_clear rnd) st2) as (Hc3 & Hp3 & Hs3).
  set (st3 := if bool_decide _ then _ else _) in *.
  pose proof (trigger_random_effect rnd st3) as Hc4.
  assert (Hd4 : alarm_parser (_trigger_random_alarm rnd st3) = alarm_parser st3
                /\ alarm_sequences (_trigger_random_alarm rnd st3)
                   = alarm_sequences st3).
  { unfold _trigger_random_alarm.
    destruct (alarm_parser st3) as [p |] eqn:Ep; [| by rewrite Ep].
    destruct (choice (r_alarm rnd) (alarms p)) as [a |]; [| by rewrite Ep].
    destruct (engine_step_data _ _ _ (step_activate a (r_dev rnd 5) st3))
      as [H1 H2].
    change (alarm_parser (log ?m ?x)) with (alarm_parser x).
    change (alarm_sequences (log ?m ?x)) with (alarm_sequences x).
    by rewrite H1, H2, Ep. }
  destruct Hd4 as [Hp4 Hs4].
  change (current_alarms (sleep ?s (_update_alarm_counters ?x)))
    with (current_alarms x).
  change (alarm_parser (sleep ?s (_update_alarm_counters ?x)))
    with (alarm_parser x).
  change (alarm_sequences (sleep ?s (_update_alarm_counters ?x)))
    with (alarm_sequences x).
  unfold iteration_count.
  rewrite Hc4, Hc3, Hc2, Hc1, Hp4, Hp3, Hp2, Hp1, Hs4, Hs3, Hs2, Hs1.
  done.
Qed.

(** X9. One iteration of the replay loop leaves [iteration_count] alarms
    active: those that were, plus the first five members at most of the
    drawn sequence, minus the one cleared when anything is active, plus the
    one drawn from the parsed records when there are any. The scenario it
    may run on the way changes nothing to the list, and the parser and the
    sequences stay the same. *)
Theorem alarm_iteration_count (now : float) (rnd : tick_rand)
    (ls : loop_state) (st : server) :
  let st' := snd (alarm_iteration now rnd (ls, st)) in
  length (current_alarms st') = iteration_count st rnd
  /\ alarm_parser st' = alarm_parser st
  /\ alarm_sequences st' = alarm_sequences st.
Proof. apply alarm_iteration_effect. Qed.

Lemma cascading_sequences_need_records (p : KronesAlarmDataParser) :
  alarms p = [] -> get_cascading_sequences p = [].
Proof. unfold get_cascading_sequences. by intros ->. Qed.

Lemma cascading_sequences_long (p : KronesAlarmDataParser) :
  Forall (fun s => 3 ≤ length s)%nat (get_cascading_sequences p).
Proof.
  unfold get_cascading_sequences, cascade_scan.
  apply flush_lengths, fold_cascade_lengths. constructor.
Qed.

Lemma simulate_real_alarms_snoc inputs inp t0 st :
  _simulate_real_alarms (inputs ++ [inp]) t0 st
  = alarm_iteration (fst inp) (snd inp) (_simulate_real_alarms inputs t0 st).
Proof. unfold _simulate_real_alarms. by rewrite fold_left_app. Qed.

(** X10. Over the iterations of the replay loop of a freshly started
    server the number of active alarms only depends on the data: with at
    least one cascading sequence it grows by three to five alarms at every
    iteration; with records but no cascading sequence it is one after every
    iteration; without records it stays zero. *)
Theorem active_alarms_over_iterations (p : KronesAlarmDataParser)
    (t0 : float) (inputs : list (float * tick_rand)) :
  let n := length (current_alarms
                     (snd (_simulate_real_alarms inputs t0 (server_start p)))) in
  (get_cascading_sequences p ≠ [] ->
     (3 * length inputs ≤ n ≤ 5 * length inputs)%nat)
  /\ (get_cascading_sequences p = [] -> alarms p ≠ [] -> inputs ≠ [] ->
      n = 1%nat)
  /\ (alarms p = [] -> n = 0%nat).
Proof.
  assert (Hdata : forall inputs,
    alarm_parser (snd (_simulate_real_alarms inputs t0 (server_start p)))
    = Some p
    /\ alarm_sequences (snd (_simulate_real_alarms inputs t0 (server_start p)))
       = get_cascading_sequences p).
  { intros l. induction l as [| inp l [IH1 IH2]] using rev_ind; [done |].
    rewrite simulate_real_alarms_snoc.
    destruct (_simulate_real_alarms l t0 (server_start p)) as [ls st].
    destruct (alarm_iteration_effect (fst inp) (snd inp) ls st)
      as (_ & -> & ->). done. }
  assert (Hstep : forall l inp,
    length (current_alarms
              (snd (_simulate_real_alarms (l ++ [inp]) t0 (server_start p))))
    = iteration_count (snd (_simulate_real_alarms l t0 (server_start p)))
        (snd inp)).
  { intros l inp. rewrite simulate_real_alarms_snoc.
    destruct (_simulate_real_alarms l t0 (server_start p)) as [ls st].
    apply alarm_iteration_effect. }
  intros n. subst n. split; [| split].
  - intros Hseqs.
    induction inputs as [| inp l IH] using rev_ind; [simpl; lia |].
    rewrite Hstep, length_app. simpl. unfold iteration_count.
    destruct (Hdata l) as [-> ->].
    destruct (choice_nonempty (r_seq (snd inp)) _ Hseqs) as [sequence Hc].
    rewrite Hc.
    assert (3 ≤ length sequence)%nat.
    { pose proof (cascading_sequences_long p) as Hall.
      rewrite Forall_forall in Hall. apply Hall.
      by apply choice_elem_of in Hc. }
    destruct (alarms p) as [| a rest] eqn:E;
      [by rewrite (cascading_sequences_need_records p E) in Hseqs |].
    lia.
  - intros Hnone Hrecords Hne.
    destruct (alarms p) as [| a rest] eqn:E; [done |].
    assert (Hle : forall l,
      (length (current_alarms
                 (snd (_simulate_real_alarms l t0 (server_start p)))) ≤ 1)%nat).
    { intros l. induction l as [| inp' l' IH] using rev_ind; [simpl; lia |].
      rewrite Hstep. unfold iteration_count.
      destruct (Hdata l') as [-> ->]. rewrite Hnone, E.
      change (choice (r_seq (snd inp')) []) with (@None (list KronesAlarm)).
      cbv beta iota zeta. lia. }
    destruct inputs as [| inp l _] using rev_ind; [done |].
    rewrite Hstep. unfold iteration_count.
    destruct (Hdata l) as [-> ->]. rewrite Hnone, E.
    change (choice (r_seq (snd inp)) []) with (@None (list KronesAlarm)).
    cbv beta iota zeta. specialize (Hle l). lia.
  - intros Hempty.
    induction inputs as [| inp l IH] using rev_ind; [done |].
    rewrite Hstep. unfold iteration_count.
    destruct (Hdata l) as [-> ->].
    rewrite (cascading_sequences_need_records p Hempty), Hempty, IH.
    reflexivity.
Qed.

Lemma active_alarms_over_iterations_witness :
  (12 ≤ length (current_alarms
                  (snd (_simulate_real_alarms sample_inputs 0
                          (server_start three_alarms)))))%nat.
Proof.
  assert (Hseqs : get_cascading_sequences three_alarms ≠ [])
    by (vm_compute; discriminate).
  exact (proj1 (proj1 (active_alarms_over_iterations three_alarms 0
                         sample_inputs) Hseqs)).
Defined.

(** ** Counters, production writes, scenario effect *)

Lemma warning_is_not_fault (a : KronesAlarm) :
  alarm_type a = "Warning" -> is_fault a = false.
Proof. unfold is_fault. by intros ->. Qed.

Lemma disjoint_counts (p q : KronesAlarm -> bool) (l : list KronesAlarm) :
  (forall a, p a = true -> q a = false) ->
  count p l + count q l <= Z.of_nat (length l).
Proof.
  intros Hpq. unfold count.
  induction l as [| a l IH]; simpl; [lia |].
  destruct (p a) eqn:Hp; [rewrite (Hpq a Hp) |]; destruct (q a); simpl; lia.
Qed.

(** X11. At the end of every iteration of the replay loop the three counter
    tags describe the list of active alarms: the number of active alarms,
    the number of those of type "Warning", the number of those whose type
    contains "Fault"; warnings and faults together never exceed the
    total. *)
Theorem counters_after_iteration (now : float) (rnd : tick_rand)
    (ls : loop_state) (st : server) :
  let st' := snd (alarm_iteration now rnd (ls, st)) in
  let current := current_alarms st' in
  let warnings :=
    count (fun a => bool_decide (alarm_type a = "Warning")) current in
  tree st' !! mma_nodes.Active_Alarms = Some (VInt (Z.of_nat (length current)))
  /\ tree st' !! mma_nodes.Warning_Count = Some (VInt warnings)
  /\ tree st' !! mma_nodes.Fault_Count = Some (VInt (count is_fault current))
  /\ warnings + count is_fault current <= Z.of_nat (length current).
Proof.
  unfold alarm_iteration.
  destruct (if PrimFloat.ltb _ _ then _ else _) as [ls1 st1]. cbn [snd].
  set (st4 := _trigger_random_alarm rnd _).
  change (current_alarms (sleep 0.05 (_update_alarm_counters st4)))
    with (current_alarms st4).
  change (tree (sleep 0.05 (_update_alarm_counters st4)))
    with (<[mma_nodes.Fault_Count := VInt (count is_fault (current_alarms st4))]>
            (<[mma_nodes.Warning_Count :=
                 VInt (count (fun a => bool_decide (alarm_type a = "Warning"))
                         (current_alarms st4))]>
               (<[mma_nodes.Active_Alarms :=
                    VInt (Z.of_nat (length (current_alarms st4)))]>
                  (tree st4)))).
  repeat split.
  - rewrite !lookup_insert_ne by done. apply lookup_insert_eq.
  - rewrite lookup_insert_ne by done. apply lookup_insert_eq.
  - apply lookup_insert_eq.
  - apply disjoint_counts. intros a Ha. apply bool_decide_eq_true in Ha.
    by apply warning_is_not_fault.
Qed.

Ltac in_acts H :=
  repeat
    (apply elem_of_cons in H as [H | H];
     [try discriminate H; try (injection H as -> ->) |]);
  try (by apply elem_of_nil in H).

Lemma production_rate_idle : production_rate_of 0 = ok 18000.
Proof. by vm_compute. Qed.

(** X12. A production tick writes only the speed, the total, the machine
    state and the line state. It writes the line state only when no alarm
    is active, and then "RUNNING"; the machine state it writes is "FAULT"
    when an active alarm has a type containing "Fault", else "WARNING" when
    an alarm is active, else "RUNNING". It never writes "STOPPED": with no
    alarm active the rate is 18000. *)
Theorem production_tick_writes (st : server) :
  exists acts,
    trace (_simulate_production_tick st) = trace st ++ acts
    /\ forall tag v, AWrite tag v ∈ acts ->
         tag ∈ [mma_nodes.Speed_CPH; mma_nodes.Total_Production;
                mma_nodes.State; process_nodes.Line_State]
         /\ v ≠ VStr "STOPPED"
         /\ (tag = process_nodes.Line_State ->
             current_alarms st = [] /\ v = VStr "RUNNING")
         /\ (tag = mma_nodes.State ->
             v = VStr (machine_state_label (current_alarms st))).
Proof.
  unfold _simulate_production_tick, machine_state_label.
  destruct (production_rate_of (length (current_alarms st))) as [e | rate]
    eqn:Hrate.
  { eexists. split; [unfold production_failed, sleep, log, emit; simpl;
                     by rewrite <- app_assoc |].
    intros tag v Hin. in_acts Hin. }
  cbv zeta.
  destruct (PyFloat.to_int _) as [e | total].
  { eexists. split; [unfold production_failed, sleep, log, emit; simpl;
                     by rewrite <- !app_assoc |].
    intros tag v Hin. in_acts Hin. repeat split; try done.
    apply (bool_decide_unpack _). by vm_compute. }
  change (current_alarms (write_value ?t ?v ?x)) with (current_alarms x).
  change (current_alarms (set_total_production ?t ?x)) with (current_alarms x).
  change (current_alarms (write_value ?t ?v ?x)) with (current_alarms x).
  change (current_alarms (set_production_rate ?t ?x)) with (current_alarms x).
  destruct (0 <? count is_fault (current_alarms st)) eqn:Hfault;
    [| case_bool_decide as Hactive;
       [| destruct (1000 <? rate) eqn:Hfast]].
  - eexists. split; [unfold sleep, emit; simpl; by rewrite <- !app_assoc |].
    intros tag v Hin. in_acts Hin; repeat split; try done;
      apply (bool_decide_unpack _); by vm_compute.
  - eexists. split; [unfold sleep, emit; simpl; by rewrite <- !app_assoc |].
    intros tag v Hin. in_acts Hin; repeat split; try done;
      apply (bool_decide_unpack _); by vm_compute.
  - assert (Hempty : current_alarms st = []).
    { destruct (current_alarms st); [done | simpl in Hactive; lia]. }
    eexists. split; [unfold sleep, emit; simpl; by rewrite <- !app_assoc |].
    intros tag v Hin. in_acts Hin; repeat split; try done;
      apply (bool_decide_unpack _); by vm_compute.
  - assert (Hempty : current_alarms st = []).
    { destruct (current_alarms st); [done | simpl in Hactive; lia]. }
    rewrite Hempty in Hrate. simpl in Hrate.
    rewrite production_rate_idle in Hrate. injection Hrate as <-. done.
Qed.

Lemma last_write_cons tag (w : string * value) ws :
  last_write tag (w :: ws)
  = match last_write tag ws with
    | Some v => Some v
    | None => if decide (fst w = tag) then Some (snd w) else None
    end.
Proof.
  unfold last_write. simpl.
  generalize (if decide (fst w = tag) then Some (snd w) else None).
  induction ws as [| w' ws IH] using rev_ind; intros acc; [done |].
  rewrite !fold_left_app. simpl. by case_decide.
Qed.

Ltac other_steps :=
  repeat
    match goal with
    | |- rtc other_task_step ?st ?st => apply rtc_refl
    | |- rtc other_task_step _ (sleep ?s ?x) =>
        apply (rtc_r _ x); [| exact (other_action (ASleep s) x I)]
    | |- rtc other_task_step _ (log ?m ?x) =>
        apply (rtc_r _ x); [| exact (other_action (ALog m) x I)]
    | |- rtc other_task_step _ (set_production_rate ?r ?x) =>
        apply (rtc_r _ x); [| exact (other_rate r x)]
    | |- rtc other_task_step _ (set_total_production ?t ?x) =>
        apply (rtc_r _ x); [| exact (other_total t x)]
    | |- rtc other_task_step _ (write_value ?t ?v ?x) =>
        apply (rtc_r _ x);
        [| apply (other_action (AWrite t v) x);
           first [ by right
                 | left; apply (bool_decide_unpack _); by vm_compute ]]
    end.

Lemma production_tick_other_steps (st : server) :
  rtc other_task_step st (_simulate_production_tick st).
Proof.
  unfold _simulate_production_tick, production_failed.
  destruct (production_rate_of (length (current_alarms st))) as [e | rate]
    eqn:Hrate; [other_steps |].
  cbv zeta. destruct (PyFloat.to_int _) as [e | total]; [other_steps |].
  change (current_alarms (write_value ?t ?v ?x)) with (current_alarms x).
  change (current_alarms (set_total_production ?t ?x)) with (current_alarms x).
  change (current_alarms (write_value ?t ?v ?x)) with (current_alarms x).
  change (current_alarms (set_production_rate ?t ?x)) with (current_alarms x).
  destruct (0 <? count is_fault (current_alarms st)) eqn:Hfault;
    [other_steps |].
  case_bool_decide as Hactive; [other_steps |].
  assert (Hempty : current_alarms st = []).
  { destruct (current_alarms st); [done | simpl in Hactive; lia]. }
  rewrite Hempty in Hrate. simpl in Hrate.
  rewrite production_rate_idle in Hrate. injection Hrate as <-.
  change (1000 <? 18000) with true. cbv iota. other_steps.
Qed.

Lemma metrics_tick_other_steps round1 u_temp u_pressure (st : server) :
  rtc other_task_step st
    (_update_process_variables_tick round1 u_temp u_pressure st).
Proof. unfold _update_process_variables_tick. cbv zeta. other_steps. Qed.

Lemma script_run_others script st st1 st' :
  rtc other_task_step st st1 -> script_run script st1 st' ->
  script_run script st st'.
Proof.
  induction 1 as [| x y z Hstep _ IH]; [done |].
  intros Hrun. eapply run_other; [exact Hstep | by apply IH].
Qed.

Lemma script_run_atomic script st :
  script_run script st (fold_left run_action script st).
Proof.
  revert st. induction script as [| a script IH]; intros st.
  - apply run_end.
  - apply run_statement, IH.
Qed.

Lemma other_task_step_effect st st1 tag :
  other_task_step st st1 ->
  current_alarms st1 = current_alarms st
  /\ (tag ∈ scenario_tags ->
      tree st1 !! tag = tree st !! tag
      \/ (tag = process_nodes.Line_State
          /\ tree st1 !! tag = Some (VStr "RUNNING"))).
Proof.
  intros [a st0 Ha | r st0 | t st0]; [| by split; [| left] ..].
  destruct a as [t v | |]; [| by split; [| left] ..].
  split; [done |]. intros Htag. simpl.
  destruct Ha as [Hnot | [-> ->]].
  - left. apply lookup_insert_ne. by intros ->.
  - destruct (decide (tag = process_nodes.Line_State)) as [-> | Hne].
    + right. split; [done |]. apply lookup_insert_eq.
    + left. by apply lookup_insert_ne.
Qed.

(** Whatever the other coroutines do during a script, the list of active
    alarms is unchanged at its end, and a scenario tag holds the value of
    the script's last write to it, or its former value when the script did
    not write it; the line state may also have been set to "RUNNING" by
    the production loop. *)
Lemma script_run_effect script st st' :
  script_run script st st' ->
  current_alarms st' = current_alarms st
  /\ forall tag, tag ∈ scenario_tags ->
       tree st' !! tag
       = match last_write tag (script_writes script) with
         | Some v => Some v
         | None => tree st !! tag
         end
       \/ (tag = process_nodes.Line_State
           /\ tree st' !! tag = Some (VStr "RUNNING")).
Proof.
  induction 1 as [st | a script st st' _ [IHc IHt]
                  | script st st1 st' Hstep _ [IHc IHt]].
  - split; [done |]. intros tag _. by left.
  - split; [rewrite IHc; by destruct a |].
    intros tag Htag. destruct (IHt tag Htag) as [H | H]; [left | by right].
    rewrite H. destruct a as [t v | |]; [| done ..].
    change (script_writes (AWrite t v :: script))
      with ((t, v) :: script_writes script).
    rewrite last_write_cons.
    destruct (last_write tag (script_writes script)); [done |].
    simpl. rewrite lookup_insert. by case_decide.
  - destruct (other_task_step_effect st st1 process_nodes.Line_State Hstep)
      as [Hc _].
    split; [by rewrite IHc |].
    intros tag Htag. destruct (IHt tag Htag) as [H | H]; [| by right].
    destruct (last_write tag (script_writes script)) as [v |]; [by left |].
    destruct (proj2 (other_task_step_effect st st1 tag Hstep) Htag)
      as [H1 | [-> H1]].
    + left. by rewrite H, H1.
    + right. split; [done |]. by rewrite H.
Qed.

(** X13. A scenario script runs while the production loop and the metrics
    loop go on: each of their ticks is a sequence of steps that write no
    scenario tag, except the line state as "RUNNING", and leave the list of
    active alarms alone. However such steps fall before, between and after
    the statements of the script, at its end every tag the script wrote
    (the line state and the symptom tags it asserted) holds its nominal
    value again and the active alarms are what they were. The script run
    in one piece is one such run. *)
Theorem scenarios_restore_nominal :
  (forall st, rtc other_task_step st (_simulate_production_tick st))
  /\ (forall round1 u_temp u_pressure st,
        rtc other_task_step st
          (_update_process_variables_tick round1 u_temp u_pressure st))
  /\ (forall st,
        script_run scenario_a_script st (_trigger_scenario_a st)
        /\ script_run scenario_b_script st (_trigger_scenario_b st))
  /\ forall s st st',
       script_run (scenario_script s) st st' ->
       (forall tag, tag ∈ tags (script_writes (scenario_script s)) ->
          tree st' !! tag = initial_tree !! tag)
       /\ current_alarms st' = current_alarms st.
Proof.
  split; [apply production_tick_other_steps |].
  split; [apply metrics_tick_other_steps |].
  split; [intros st; split; apply script_run_atomic |].
  intros s st st' Hrun.
  destruct (script_run_effect _ _ _ Hrun) as [Hc Ht].
  split; [| done]. intros tag Hin.
  assert (Hscen : tag ∈ scenario_tags
                  /\ last_write tag (script_writes (scenario_script s))
                     = initial_tree !! tag
                  /\ is_Some (initial_tree !! tag)
                  /\ initial_tree !! process_nodes.Line_State
                     = Some (VStr "RUNNING")).
  { destruct s; vm_compute in Hin; elems Hin;
      (split; [apply (bool_decide_unpack _); by vm_compute |]);
      (split; [by vm_compute |]);
      (split; [vm_compute; eauto | by vm_compute]). }
  destruct Hscen as (Htag & Hlast & [v Hv] & Hline).
  destruct (Ht tag Htag) as [H | [-> H]].
  - rewrite H, Hlast, Hv. done.
  - by rewrite H, Hline.
Qed.

Lemma scenarios_restore_nominal_witness :
  let st0 := server_start three_alarms in
  let st1 :=
    _simulate_production_tick
      (write_value process_nodes.Line_State (VStr "STOPPED") st0) in
  let st' := fold_left run_action (tail scenario_a_script) st1 in
  tree st1 !! process_nodes.Line_State = Some (VStr "RUNNING")
  /\ tree st' !! process_nodes.Line_State = Some (VStr "RUNNING")
  /\ tree st' !! mma_nodes.ESTOP_Triggered = Some (VBool false).
Proof.
  intros st0 st1 st'.
  assert (Hrun : script_run (scenario_script ScenarioA) st0 st').
  { apply run_statement.
    apply (script_run_others _ _ st1);
      [apply production_tick_other_steps | apply script_run_atomic]. }
  pose proof (proj1 (proj2 (proj2 (proj2 scenarios_restore_nominal))
                       ScenarioA st0 st' Hrun)) as H.
  split; [by vm_compute |]. split.
  - rewrite (H process_nodes.Line_State); [done |].
    apply (bool_decide_unpack _). by vm_compute.
  - rewrite (H mma_nodes.ESTOP_Triggered); [done |].
    apply (bool_decide_unpack _). by vm_compute.
Defined.
